(** * mokuro: the batch orchestrator [run] of [mokuro/run.py]

    A shallow embedding of the command-line entry point [run]: path
    resolution (explicit paths and the optional parent-directory scan),
    natural sorting, the confirmation prompt, the per-volume loop with its
    [try / except Exception / else] and the final summary.

    The Python runtime that [run] calls into is modelled next to it:
    - [PyStr]: the [str] methods used ([lower], [rfind], slicing, [split]);
    - [PurePath]: [pathlib]'s POSIX paths ([Path(p)], [expanduser],
      [absolute], [iterdir], [is_dir], [stem], [str]);
    - [Natsort]: the default key of [natsort.natsorted];
    - effects: a state-and-exception monad over a [World] that records every
      observable event (log records, prints, the prompt, processor calls),
      and a [Terminal] that says when [print] and [input] raise.

    Strings are sequences of 8-bit characters (the UTF-8 bytes of the Python
    [str]); the only case mapping and digit classes used are the ASCII ones. *)

From Stdlib Require Import List String Ascii Bool Arith ZArith NArith Lia.
From Stdlib Require Import Sorting.Permutation Sorting.Sorted.
From Stdlib Require Import Numbers.DecimalString.
From Stdlib Require OrderedTypeEx.
Import ListNotations.

Local Open Scope string_scope.
Local Open Scope list_scope.

(* ================================================================== *)
(** ** Python strings *)

Module PyStr.

(** The newline character, written [\n] in the source's literals. *)
Definition nl : string := String (ascii_of_nat 10) "".

Definition is_upper (c : ascii) : bool :=
  (65 <=? nat_of_ascii c)%nat && (nat_of_ascii c <=? 90)%nat.

Definition lower_char (c : ascii) : ascii :=
  if is_upper c then ascii_of_nat (nat_of_ascii c + 32) else c.

(** [s.lower()].  No code point outside [A-Z] lowers to an ASCII letter
    other than [k] (KELVIN SIGN) and [i] followed by a combining dot, so on
    the question "is the result [y] or [yes]" this agrees with Python. *)
Fixpoint lower (s : string) : string :=
  match s with
  | EmptyString => EmptyString
  | String c s' => String (lower_char c) (lower s')
  end.

Fixpoint rfind_from (c : ascii) (s : string) (i last : Z) : Z :=
  match s with
  | EmptyString => last
  | String a s' =>
      rfind_from c s' (i + 1)%Z (if Ascii.eqb a c then i else last)
  end.

(** [s.rfind(c)]: the highest index of [c] in [s], [-1] when absent. *)
Definition rfind (c : ascii) (s : string) : Z := rfind_from c s 0%Z (-1)%Z.

Definition len (s : string) : Z := Z.of_nat (String.length s).

(** [s[:i]] and [s[i:]] for [0 <= i]. *)
Definition slice_to (s : string) (i : Z) : string :=
  String.substring 0 (Z.to_nat i) s.
Definition slice_from (s : string) (i : Z) : string :=
  String.substring (Z.to_nat i) (String.length s - Z.to_nat i) s.

(** [s.split(sep)] for a one-character separator. *)
Fixpoint split (sep : ascii) (s : string) : list string :=
  match s with
  | EmptyString => [EmptyString]
  | String c s' =>
      if Ascii.eqb c sep then EmptyString :: split sep s'
      else match split sep s' with
           | h :: t => String c h :: t
           | [] => [String c EmptyString]
           end
  end.

(** [sep.join(l)]. *)
Fixpoint join (sep : string) (l : list string) : string :=
  match l with
  | [] => EmptyString
  | [x] => x
  | x :: l' => x ++ sep ++ join sep l'
  end.

(** [s[:1] == c]. *)
Definition starts_with_char (c : ascii) (s : string) : bool :=
  match s with
  | String a _ => Ascii.eqb a c
  | EmptyString => false
  end.

(** [str(n)] for a non-negative integer. *)
Definition of_nat (n : nat) : string := NilZero.string_of_uint (Nat.to_uint n).

End PyStr.

(* ================================================================== *)
(** ** Python exceptions *)

(** An exception object: its class name, whether the class derives from
    [Exception] (as opposed to deriving from [BaseException] only, like
    [KeyboardInterrupt], [SystemExit] and [GeneratorExit]) and its detail. *)
Record PyErr : Type := mkErr {
  err_class : string;
  err_is_Exception : bool;
  err_detail : string
}.

Definition KeyboardInterrupt : PyErr := mkErr "KeyboardInterrupt" false "".
Definition SystemExit (code : string) : PyErr := mkErr "SystemExit" false code.
Definition EOFError : PyErr := mkErr "EOFError" true "EOF when reading a line".
Definition RuntimeError (msg : string) : PyErr := mkErr "RuntimeError" true msg.
Definition FileNotFoundError (msg : string) : PyErr :=
  mkErr "FileNotFoundError" true msg.
Definition NotADirectoryError (msg : string) : PyErr :=
  mkErr "NotADirectoryError" true msg.
Definition UnicodeEncodeError (msg : string) : PyErr :=
  mkErr "UnicodeEncodeError" true msg.

(** The outcome of a Python call: a value, or a raised exception. *)
Inductive Result (A : Type) : Type :=
| Normal (a : A)
| Raised (e : PyErr).
Arguments Normal {A} a.
Arguments Raised {A} e.

(* ================================================================== *)
(** ** pathlib: POSIX paths *)

Module PurePath.

(** A parsed path: its root ([""], ["/"] or ["//"]) and its components. *)
Record Path : Type := mkPath {
  root : string;
  tail : list string
}.

Definition Path_eq_dec (p q : Path) : {p = q} + {p <> q}.
Proof.
  decide equality.
  - apply (list_eq_dec string_dec).
  - apply string_dec.
Defined.

(** [p == q]: paths compare by root and components, case-sensitively. *)
Definition eqb (p q : Path) : bool :=
  if Path_eq_dec p q then true else false.

(** [p in paths] on a list. *)
Fixpoint contains (paths : list Path) (p : Path) : bool :=
  match paths with
  | [] => false
  | q :: rest => eqb q p || contains rest p
  end.

(** [posixpath.splitroot]: one leading slash or three and more give the
    root ["/"], exactly two give ["//"]. *)
Definition splitroot (s : string) : string * string :=
  match s with
  | String "/" (String "/" (String "/" r)) => ("/", String "/" (String "/" r))
  | String "/" (String "/" r) => ("//", r)
  | String "/" r => ("/", r)
  | _ => ("", s)
  end.

(** [Path(s)]: split off the root, split the rest on ["/"], drop empty
    components and ["."]. *)
Definition parse (s : string) : Path :=
  let '(rt, rel) := splitroot s in
  mkPath rt
    (filter (fun x => negb (String.eqb x "") && negb (String.eqb x "."))
            (PyStr.split "/" rel)).

(** [str(p)]. *)
Definition str (p : Path) : string :=
  match root p, tail p with
  | "", [] => "."
  | rt, parts => rt ++ PyStr.join "/" parts
  end.

(** [p.name]: the final component, [""] when there is none. *)
Definition name (p : Path) : string := last (tail p) "".

(** [p.stem]: the final component without its last suffix (a dot that is
    neither the first nor the last character starts a suffix, as in
    CPython up to 3.13). *)
Definition stem (p : Path) : string :=
  let name := name p in
  let i := PyStr.rfind "." name in
  if ((0 <? i) && (i <? PyStr.len name - 1))%Z
  then PyStr.slice_to name i
  else name.

Definition is_absolute (p : Path) : bool := negb (String.eqb (root p) "").

(** [parent / child_name] as [iterdir] builds it: the name is appended as
    one component, unparsed. *)
Definition make_child_relpath (p : Path) (child : string) : Path :=
  mkPath (root p) (tail p ++ [child]).

End PurePath.
Export PurePath.

(** The environment [run] reads: the process's working directory, the
    user-database lookup behind [os.path.expanduser], and the (read-only)
    filesystem.  It describes a file system in which [os.getcwd()] returns
    and [is_dir()] answers: a working directory that has been removed
    ([FileNotFoundError]) and an [is_dir()] that raises (an [OSError]
    other than the "not found" ones it turns into [False]) are left out,
    so a statement about [resolve] is about runs in which these two calls
    return. *)
Record Env : Type := mkEnv {
  (** [os.getcwd()] *)
  getcwd : string;
  (** [os.path.expanduser(part)] for a component that starts with [~];
      the component itself when the user is unknown *)
  os_expanduser : string -> string;
  (** [os.listdir(p)]: the entry names, or the [OSError] raised *)
  listdir : Path -> Result (list string);
  (** [p.is_dir()] *)
  is_dir : Path -> bool
}.

Module Pathlib.

(** [p.expanduser()] *)
Definition expanduser (env : Env) (p : Path) : Result Path :=
  match root p, tail p with
  | "", first :: rest =>
      if PyStr.starts_with_char "~" first then
        let homedir := os_expanduser env first in
        if PyStr.starts_with_char "~" homedir then
          Raised (RuntimeError "Could not determine home directory.")
        else
          let h := PurePath.parse homedir in
          Normal (mkPath (root h) (tail h ++ rest))
      else Normal p
  | _, _ => Normal p
  end.

(** [p.absolute()]: a relative path is joined to the working directory;
    nothing is resolved or checked. *)
Definition absolute (env : Env) (p : Path) : Path :=
  if is_absolute p then p
  else
    let cwd := PurePath.parse (getcwd env) in
    mkPath (root cwd) (tail cwd ++ tail p).

(** [p.iterdir()], fully enumerated: the children of [p] in the order
    [os.listdir] gives them. *)
Definition iterdir (env : Env) (p : Path) : Result (list Path) :=
  match listdir env p with
  | Normal names => Normal (map (make_child_relpath p) names)
  | Raised e => Raised e
  end.

End Pathlib.

(* ================================================================== *)
(** ** natsort: the default natural-sort key *)

Module Natsort.

(** One component of a key: a string piece or the value of a digit run. *)
Inductive Chunk : Type :=
| CStr (s : string)
| CNum (n : N).

(** An ASCII digit.  natsort also takes the other Unicode decimal and
    digit characters for numbers, and it normalises the string (NFD)
    before splitting it; here a string is compared as its bytes and every
    character outside ASCII is text.  So the key below is natsort's on
    ASCII strings, and the statements about numbers ask for ASCII
    characters around the numbers they compare. *)
Definition is_digit (c : ascii) : bool :=
  (48 <=? nat_of_ascii c)%nat && (nat_of_ascii c <=? 57)%nat.

Definition digit_val (c : ascii) : N := N.of_nat (nat_of_ascii c - 48).

(** [int(s)] for a string of digits, most significant first. *)
Fixpoint int_of_digits (s : string) (acc : N) : N :=
  match s with
  | EmptyString => acc
  | String c s' => int_of_digits s' (10 * acc + digit_val c)%N
  end.

(** Splitting on the pattern [([0-9]+)] and dropping the empty pieces:
    the maximal runs of digits and of non-digits, each tagged with
    whether it is a digit run. *)
Fixpoint runs (s : string) : list (bool * string) :=
  match s with
  | EmptyString => []
  | String c s' =>
      match runs s' with
      | (b, r) :: t =>
          if Bool.eqb b (is_digit c) then (b, String c r) :: t
          else (is_digit c, String c EmptyString) :: (b, r) :: t
      | [] => [(is_digit c, String c EmptyString)]
      end
  end.

(** The component transform: digit runs become integers. *)
Definition component (r : bool * string) : Chunk :=
  if fst r then CNum (int_of_digits (snd r) 0) else CStr (snd r).

Definition is_num (c : Chunk) : bool :=
  match c with CNum _ => true | CStr _ => false end.

(** [sep_inserter]: the empty string goes before a leading number and
    between two adjacent numbers, so that position by position a string
    meets a string and a number meets a number. *)
Fixpoint sep_between (l : list Chunk) : list Chunk :=
  match l with
  | x :: ((y :: _) as l') =>
      if is_num x && is_num y then x :: CStr "" :: sep_between l'
      else x :: sep_between l'
  | _ => l
  end.

Definition sep_inserter (l : list Chunk) : list Chunk :=
  match l with
  | CNum n :: _ => CStr "" :: sep_between l
  | _ => sep_between l
  end.

Definition natsort_key (s : string) : list Chunk :=
  sep_inserter (map component (runs s)).

Definition chunk_eqb (x y : Chunk) : bool :=
  match x, y with
  | CStr s, CStr t => String.eqb s t
  | CNum n, CNum m => N.eqb n m
  | _, _ => false
  end.

(** [x < y] on components.  Python raises [TypeError] on a string against
    a number; [key_shape] and [shape_comparable] below show that two keys
    built by [natsort_key] never reach that case. *)
Definition chunk_ltb (x y : Chunk) : bool :=
  match x, y with
  | CStr s, CStr t => String.ltb s t
  | CNum n, CNum m => N.ltb n m
  | _, _ => false
  end.

(** [a < b] on tuples: decided at the first position that differs, a
    proper prefix being smaller. *)
Fixpoint key_ltb (a b : list Chunk) : bool :=
  match a, b with
  | [], [] => false
  | [], _ :: _ => true
  | _ :: _, [] => false
  | x :: a', y :: b' =>
      if chunk_eqb x y then key_ltb a' b' else chunk_ltb x y
  end.

Section Sorted.
Context {A : Type} (key : A -> list Chunk).

(** Stable insertion: [x], which stood before every element of [l],
    goes before the first element that is not smaller than it. *)
Fixpoint insert (x : A) (l : list A) : list A :=
  match l with
  | [] => [x]
  | y :: l' =>
      if key_ltb (key y) (key x) then y :: insert x l'
      else x :: y :: l'
  end.

(** [natsorted(l, key)]: the stable sort of [l] by natural-sort key. *)
Fixpoint natsorted_by (l : list A) : list A :=
  match l with
  | [] => []
  | x :: l' => insert x (natsorted_by l')
  end.
End Sorted.

(** Modelled from the spec: [natsorted] belongs to the third-party
    [natsort] package, which is not under src/.  The spec has it sort
    "on the string form of each path", "lexicographic with numeric runs
    compared by numeric value"; the key above is natsort's default
    algorithm (unsigned integers, no locale, no case folding) on ASCII
    strings: its numeric runs are the runs of ASCII digits, and it does
    not normalise the string. *)
Definition natsorted (paths : list Path) : list Path :=
  natsorted_by (fun p => natsort_key (PurePath.str p)) paths.

End Natsort.
Export Natsort.

(* ================================================================== *)
(** ** Effects *)

Inductive Level : Type := INFO | ERROR.

(** A value of the [default_state] dictionary. *)
Inductive Value : Type :=
| VInt (z : Z)
| VStr (s : string)
| VBool (b : bool).

(** Modelled from the spec: the class [mokuro.OverlayGenerator] is not under
    src/.  The object is the record of its constructor's arguments, "fixed
    for the whole run"; everything its [process_dir] reads or changes
    besides them (models, files on disk) is the external state [Ext]. *)
Record OverlayGenerator : Type := mkOvg {
  ovg_default_state : list (string * Value);
  ovg_pretrained_model_name_or_path : string;
  ovg_force_cpu : bool;
  ovg_disable_ocr : bool
}.

(** The volume processor: [ovg.process_dir(path, as_one_file=...)] returns
    or raises, and changes the external state. *)
Class VolumeProcessor (Ext : Type) : Type := {
  process_dir : OverlayGenerator -> Path -> bool -> Ext -> Result unit * Ext
}.

(** What a run does that can be observed, in the order it happens. *)
Inductive Event : Type :=
| EvLog (lvl : Level) (msg : string) (exc : option PyErr)
| EvPrint (s : string)
| EvInput (prompt : string) (line : option string)
| EvProcessDir (ovg : OverlayGenerator) (path : Path) (as_one_file : bool)
               (r : Result unit).

Record World (Ext : Type) : Type := mkWorld {
  trace : list Event;
  stdin : list string;
  ext : Ext
}.
Arguments mkWorld {Ext} _ _ _.
Arguments trace {Ext} _.
Arguments stdin {Ext} _.
Arguments ext {Ext} _.

(** Computations of [run]: they change the world and return or raise. *)
Definition M (Ext A : Type) : Type := World Ext -> Result A * World Ext.

(** The terminal [run] writes to and reads from.  [print] can raise: a
    string that the encoding of standard output cannot write raises
    [UnicodeEncodeError], before anything of it is written.  [input] can
    raise at the prompt, besides [EOFError] at the end of the input:
    [KeyboardInterrupt] with the input untouched, an error in decoding a
    line with that line gone.  The terminal says, for a string to print,
    whether [print] raises and what; and for the input that is pending,
    whether [input] raises, what, and the input it leaves pending. *)
Class Terminal : Type := {
  print_error : string -> option PyErr;
  input_error : list string -> option (PyErr * list string)
}.

(** The terminal that writes every string and hands out the pending lines
    one by one.  A statement that names no terminal is about a run on this
    one. *)
#[global] Instance plain_terminal : Terminal :=
  {| print_error := fun _ => None; input_error := fun _ => None |}.

Section Monad.
Context {Ext : Type}.

Definition ret {A} (a : A) : M Ext A := fun w => (Normal a, w).

Definition bind {A B} (m : M Ext A) (k : A -> M Ext B) : M Ext B :=
  fun w =>
    match m w with
    | (Normal a, w') => k a w'
    | (Raised e, w') => (Raised e, w')
    end.

(** A pure call that may raise. *)
Definition lift {A} (r : Result A) : M Ext A := fun w => (r, w).

Definition emit (ev : Event) : M Ext unit :=
  fun w => (Normal tt, mkWorld (trace w ++ [ev]) (stdin w) (ext w)).

Definition logger_info (msg : string) : M Ext unit :=
  emit (EvLog INFO msg None).

Definition logger_error (msg : string) : M Ext unit :=
  emit (EvLog ERROR msg None).

(** [logger.exception(msg)] inside a handler: an ERROR record that
    carries the exception being handled. *)
Definition logger_exception (msg : string) (e : PyErr) : M Ext unit :=
  emit (EvLog ERROR msg (Some e)).

Context {T : Terminal}.

(** [print(s)]: writes [s], unless the terminal raises on it; nothing is
    written then. *)
Definition print (s : string) : M Ext unit :=
  fun w =>
    match print_error s with
    | Some e => (Raised e, w)
    | None => emit (EvPrint s) w
    end.

(** [input(prompt)]: shows the prompt and reads one line without its
    newline; [EOFError] at the end of the input; the exception of the
    terminal when it raises one at the prompt. *)
Definition input (prompt : string) : M Ext string :=
  fun w =>
    match input_error (stdin w) with
    | Some (e, pending) =>
        (Raised e, mkWorld (trace w ++ [EvInput prompt None]) pending (ext w))
    | None =>
        match stdin w with
        | line :: rest =>
            (Normal line,
             mkWorld (trace w ++ [EvInput prompt (Some line)]) rest (ext w))
        | [] =>
            (Raised EOFError,
             mkWorld (trace w ++ [EvInput prompt None]) [] (ext w))
        end
    end.

(** [try: body / except Exception: handler / else: orelse].  Only an
    exception whose class derives from [Exception] reaches the handler;
    what [orelse] raises does not. *)
Definition try_except_Exception_else {A B}
    (body : M Ext A) (handler : PyErr -> M Ext B) (orelse : A -> M Ext B)
  : M Ext B :=
  fun w =>
    match body w with
    | (Normal a, w') => orelse a w'
    | (Raised e, w') =>
        if err_is_Exception e then handler e w' else (Raised e, w')
    end.

(** [for x in l: body(x)]. *)
Fixpoint for_each {A} (l : list A) (body : A -> M Ext unit) : M Ext unit :=
  match l with
  | [] => ret tt
  | x :: l' => bind (body x) (fun _ => for_each l' body)
  end.

Context `{VP : VolumeProcessor Ext}.

Definition call_process_dir (ovg : OverlayGenerator) (path : Path)
    (as_one_file : bool) : M Ext unit :=
  fun w =>
    let '(r, x) := process_dir ovg path as_one_file (ext w) in
    (r, mkWorld (trace w ++ [EvProcessDir ovg path as_one_file r])
                (stdin w) x).
End Monad.

Declare Scope py_scope.
Delimit Scope py_scope with py.
Notation "x <- m ;; k" := (bind m (fun x => k))
  (at level 100, m at next level, right associativity) : py_scope.
Notation "m ;; k" := (bind m (fun _ => k))
  (at level 100, right associativity) : py_scope.

(* ================================================================== *)
(** ** [run] *)

(** The arguments of [run], with the defaults of its signature. *)
Record Args : Type := mkArgs {
  paths : list string;
  parent_dir : option string;
  pretrained_model_name_or_path : string;
  force_cpu : bool;
  as_one_file : bool;
  disable_confirmation : bool;
  disable_ocr : bool;
  right_to_left : bool;
  double_page_view : bool;
  has_cover : bool;
  ctrl_to_pan : bool;
  display_ocr : bool;
  textbox_borders : bool;
  editable_text : bool;
  eink_mode : bool;
  textbox_click_toggle : bool
}.

Definition default_args (paths : list string) : Args :=
  {| paths := paths;
     parent_dir := None;
     pretrained_model_name_or_path := "kha-white/manga-ocr-base";
     force_cpu := false;
     as_one_file := true;
     disable_confirmation := false;
     disable_ocr := false;
     right_to_left := true;
     double_page_view := true;
     has_cover := false;
     ctrl_to_pan := false;
     display_ocr := true;
     textbox_borders := false;
     editable_text := false;
     eink_mode := false;
     textbox_click_toggle := false |}.

Definition default_state (a : Args) : list (string * Value) :=
  [ ("page_idx", VInt 0);
    ("page2_idx", VInt (-1));
    ("defaultZoomMode", VStr "fit to screen");
    ("r2l", VBool (right_to_left a));
    ("doublePageView", VBool (double_page_view a));
    ("hasCover", VBool (has_cover a));
    ("ctrlToPan", VBool (ctrl_to_pan a));
    ("displayOCR", VBool (display_ocr a));
    ("textBoxBorders", VBool (textbox_borders a));
    ("editableText", VBool (editable_text a));
    ("fontSize", VStr "auto");
    ("eInkMode", VBool (eink_mode a));
    ("toggleOCRTextBoxes", VBool (textbox_click_toggle a));
    ("backgroundColor", VStr "#C4C3D0") ].

(** [Path(p).expanduser().absolute()] *)
Definition normalize (env : Env) (p : string) : Result Path :=
  match Pathlib.expanduser env (PurePath.parse p) with
  | Normal q => Normal (Pathlib.absolute env q)
  | Raised e => Raised e
  end.

(** [[Path(p).expanduser().absolute() for p in paths]]: left to right, the
    first exception ends the comprehension. *)
Fixpoint normalize_all (env : Env) (ps : list string) : Result (list Path) :=
  match ps with
  | [] => Normal []
  | p :: ps' =>
      match normalize env p with
      | Raised e => Raised e
      | Normal q =>
          match normalize_all env ps' with
          | Raised e => Raised e
          | Normal qs => Normal (q :: qs)
          end
      end
  end.

(** The body of the scan:
    [for p in children: if p.is_dir() and p.stem != '_ocr' and p not in
    paths: paths.append(p)].  [paths] is the list being appended to, so the
    membership test sees the children appended before. *)
Fixpoint scan (env : Env) (children : list Path) (paths : list Path)
  : list Path :=
  match children with
  | [] => paths
  | p :: rest =>
      if is_dir env p && negb (String.eqb (stem p) "_ocr")
         && negb (contains paths p)
      then scan env rest (paths ++ [p])
      else scan env rest paths
  end.

(** Lines 69-74: the list [paths] as it stands before the emptiness test. *)
Definition resolve (env : Env) (ps : list string) (parent : option string)
  : Result (list Path) :=
  match normalize_all env ps with
  | Raised e => Raised e
  | Normal explicit =>
      match parent with
      | None => Normal explicit
      | Some d =>
          match normalize env d with
          | Raised e => Raised e
          | Normal dir =>
              match Pathlib.iterdir env dir with
              | Raised e => Raised e
              | Normal children => Normal (scan env children explicit)
              end
          end
      end
  end.

(** [inp.lower() in ('y', 'yes')] *)
Definition affirmative (inp : string) : bool :=
  let l := PyStr.lower inp in String.eqb l "y" || String.eqb l "yes".

Definition prompt_text : string :=
  PyStr.nl ++
  "Each of the paths above will be treated as one volume. Continue? [yes/no]"
  ++ PyStr.nl.

(** The f-strings of the loop and of the summary. *)
Definition progress_msg (i total : nat) (path : Path) : string :=
  "Processing " ++ PyStr.of_nat (i + 1) ++ "/" ++ PyStr.of_nat total
  ++ ": " ++ PurePath.str path.

Definition failure_msg (path : Path) : string :=
  "Error while processing " ++ PurePath.str path.

Definition summary_msg (num_sucessful total : nat) : string :=
  "Processed successfully: " ++ PyStr.of_nat num_sucessful ++ "/"
  ++ PyStr.of_nat total.

Definition no_paths_msg : string :=
  "Found no paths to process. Did you set the paths correctly?".

Section Run.
Context {Ext : Type} `{VP : VolumeProcessor Ext} {T : Terminal}.
Local Open Scope py_scope.

(** Lines 99-106: the loop over [enumerate(paths)], from index [i] on,
    with [total = len(paths)]; returns [num_sucessful]. *)
Fixpoint process_all (ovg : OverlayGenerator) (as_one_file : bool)
    (total i : nat) (paths : list Path) (num_sucessful : nat)
  : M Ext nat :=
  match paths with
  | [] => ret num_sucessful
  | path :: rest =>
      logger_info (progress_msg i total path) ;;
      num_sucessful <-
        try_except_Exception_else
          (call_process_dir ovg path as_one_file)
          (fun e =>
             logger_exception (failure_msg path) e ;;
             ret num_sucessful)
          (fun _ => ret (num_sucessful + 1)) ;;
      process_all ovg as_one_file total (S i) rest num_sucessful
  end.

(** Lines 91-108: what follows the confirmation. *)
Definition process_volumes (a : Args) (paths : list Path) : M Ext unit :=
  let ovg :=
    mkOvg (default_state a) (pretrained_model_name_or_path a)
          (force_cpu a) (disable_ocr a) in
  let num_sucessful := 0 in
  num_sucessful <-
    process_all ovg (as_one_file a) (List.length paths) 0 paths num_sucessful ;;
  logger_info (summary_msg num_sucessful (List.length paths)).

(** Lines 80-108: the path from a non-empty list to the end. *)
Definition confirm_and_process (a : Args) (paths : list Path) : M Ext unit :=
  let paths := natsorted paths in
  print (PyStr.nl ++ "Paths to process:" ++ PyStr.nl) ;;
  for_each paths (fun p => print (PurePath.str p)) ;;
  if negb (disable_confirmation a) then
    inp <- input prompt_text ;;
    if negb (affirmative inp) then ret tt
    else process_volumes a paths
  else process_volumes a paths.

Definition run (env : Env) (a : Args) : M Ext unit :=
  (if disable_ocr a then logger_info "Running with OCR disabled"
   else ret tt) ;;
  paths <- lift (resolve env (paths a) (parent_dir a)) ;;
  if (List.length paths =? 0)%nat then
    logger_error no_paths_msg
  else confirm_and_process a paths.

End Run.

(** *** Reading a trace *)

(** The paths handed to [process_dir], in call order. *)
Fixpoint attempted (t : list Event) : list Path :=
  match t with
  | [] => []
  | EvProcessDir _ p _ _ :: t' => p :: attempted t'
  | _ :: t' => attempted t'
  end.

(** The outcomes of the [process_dir] calls, in call order. *)
Fixpoint outcomes (t : list Event) : list (Path * Result unit) :=
  match t with
  | [] => []
  | EvProcessDir _ p _ r :: t' => (p, r) :: outcomes t'
  | _ :: t' => outcomes t'
  end.

Definition failed {A} (r : Result A) : bool :=
  match r with Normal _ => false | Raised _ => true end.

(** The number of [process_dir] calls that raised. *)
Definition failures (t : list Event) : nat :=
  List.length (filter (fun pr => failed (snd pr)) (outcomes t)).

Definition is_error_record (ev : Event) : bool :=
  match ev with EvLog ERROR _ _ => true | _ => false end.

Definition is_prompt (ev : Event) : bool :=
  match ev with EvInput _ _ => true | _ => false end.

Definition error_records (t : list Event) : list Event :=
  filter is_error_record t.

Definition prompts (t : list Event) : list Event := filter is_prompt t.

Definition successes (t : list Event) : nat :=
  List.length (filter (fun pr => negb (failed (snd pr))) (outcomes t)).

(** An outcome the [except Exception] clause handles, if it is a failure. *)
Definition catchable {A} (r : Result A) : bool :=
  match r with Normal _ => true | Raised e => err_is_Exception e end.

Section Invocations.
Context {Ext : Type} `{VP : VolumeProcessor Ext}.

(** What the invocations of [process_dir] on [paths], made one after the
    other from the external state [x], return or raise. *)
Fixpoint volume_outcomes (ovg : OverlayGenerator) (as_one_file : bool)
    (paths : list Path) (x : Ext) : list (Result unit) :=
  match paths with
  | [] => []
  | p :: rest =>
      let '(r, x') := process_dir ovg p as_one_file x in
      r :: volume_outcomes ovg as_one_file rest x'
  end.

(** The external state those invocations leave. *)
Fixpoint ext_after (ovg : OverlayGenerator) (as_one_file : bool)
    (paths : list Path) (x : Ext) : Ext :=
  match paths with
  | [] => x
  | p :: rest =>
      ext_after ovg as_one_file rest (snd (process_dir ovg p as_one_file x))
  end.
End Invocations.

(** The object built at line 91. *)
Definition make_ovg (a : Args) : OverlayGenerator :=
  mkOvg (default_state a) (pretrained_model_name_or_path a)
        (force_cpu a) (disable_ocr a).

(** The initial world of a run: nothing has happened yet. *)
Definition start {Ext} (lines : list string) (x : Ext) : World Ext :=
  mkWorld [] lines x.

(** *** Processors and environments to run the model on *)

(** A processor whose external state is the number of calls made so far and
    whose behaviour is scripted by path. *)
Definition scripted (script : Path -> Result unit) : VolumeProcessor nat :=
  {| process_dir := fun _ p _ n => (script p, S n) |}.

Definition always_ok : VolumeProcessor nat := scripted (fun _ => Normal tt).

(** An environment with working directory [/w], home [/home/u], and parent
    directory [/lib] holding the given names, all of them directories; any
    other directory cannot be listed. *)
Definition lib_env (names : list string) : Env :=
  {| getcwd := "/w";
     os_expanduser := fun _ => "/home/u";
     listdir := fun p =>
       if PurePath.eqb p (mkPath "/" ["lib"]) then Normal names
       else Raised (FileNotFoundError (PurePath.str p));
     is_dir := fun _ => true |}.

(** A record of the final summary. *)
Definition is_summary (ev : Event) : bool :=
  match ev with
  | EvLog INFO msg None => String.prefix "Processed successfully: " msg
  | _ => false
  end.

(* ================================================================== *)
(** ** Notions used to state the properties *)

(** *** Events of a run *)

(** The record written first when OCR is disabled. *)
Definition ocr_note (a : Args) : list Event :=
  if disable_ocr a then [EvLog INFO "Running with OCR disabled" None] else [].

(** The listing printed at lines 82-84. *)
Definition listing (ps : list Path) : list Event :=
  EvPrint (PyStr.nl ++ "Paths to process:" ++ PyStr.nl)
  :: map (fun p => EvPrint (PurePath.str p)) (natsorted ps).

(** The world after the optional note about OCR. *)
Definition noted {Ext : Type} (a : Args) (w : World Ext) : World Ext :=
  mkWorld (trace w ++ ocr_note a) (stdin w) (ext w).

(** *** The confirmation as the specification words it *)

(** Whitespace, as [str.strip] sees it. *)
Definition is_space (c : ascii) : bool :=
  let n := nat_of_ascii c in
  ((9 <=? n)%nat && (n <=? 13)%nat) || ((28 <=? n)%nat && (n <=? 32)%nat).

Fixpoint lstrip (s : string) : string :=
  match s with
  | EmptyString => EmptyString
  | String c s' => if is_space c then lstrip s' else s
  end.

Fixpoint rstrip (s : string) : string :=
  match s with
  | EmptyString => EmptyString
  | String c s' =>
      match rstrip s' with
      | EmptyString => if is_space c then EmptyString else String c EmptyString
      | r => String c r
      end
  end.

(** The test as the specification words it: the input "after trimming
    surrounding whitespace and lowering case" is [y] or [yes]. *)
Definition spec_affirmative (inp : string) : bool :=
  let t := PyStr.lower (lstrip (rstrip inp)) in
  String.eqb t "y" || String.eqb t "yes".

(** The inputs that lower to [y] or [yes]. *)
Definition accepted_inputs : list string :=
  ["y"; "Y"; "yes"; "yeS"; "yEs"; "yES"; "Yes"; "YeS"; "YEs"; "YES"].

(** *** Keys *)

(** The order a sorted list is in: no element has a key smaller than the
    key of the element before it. *)
Definition key_le {A : Type} (key : A -> list Chunk) (x y : A) : Prop :=
  key_ltb (key y) (key x) = false.

(** The runs of a string alternate between digits and non-digits. *)
Fixpoint alternate (l : list (bool * string)) : bool :=
  match l with
  | r :: ((r' :: _) as l') => negb (Bool.eqb (fst r) (fst r')) && alternate l'
  | _ => true
  end.

(** A key holds strings at even positions and numbers at odd ones. *)
Fixpoint shape (want_num : bool) (k : list Chunk) : bool :=
  match k with
  | [] => true
  | c :: k' => Bool.eqb (is_num c) want_num && shape (negb want_num) k'
  end.

(** Position by position, two keys hold components of the same kind. *)
Fixpoint same_kinds (a b : list Chunk) : bool :=
  match a, b with
  | x :: a', y :: b' => Bool.eqb (is_num x) (is_num y) && same_kinds a' b'
  | _, _ => true
  end.





(** *** Reading more of a trace *)

(** The generator and the flag of each [process_dir] call, in call order. *)
Fixpoint calls (t : list Event) : list (OverlayGenerator * bool) :=
  match t with
  | [] => []
  | EvProcessDir o _ f _ :: t' => (o, f) :: calls t'
  | _ :: t' => calls t'
  end.

(** The messages of the INFO records, in order. *)
Fixpoint info_messages (t : list Event) : list string :=
  match t with
  | [] => []
  | EvLog INFO msg _ :: t' => msg :: info_messages t'
  | _ :: t' => info_messages t'
  end.

(** What was printed, in order. *)
Fixpoint printed (t : list Event) : list string :=
  match t with
  | [] => []
  | EvPrint s :: t' => s :: printed t'
  | _ :: t' => printed t'
  end.

(** The progress messages of the paths, numbered from index [i]. *)
Fixpoint progress_msgs (total i : nat) (paths : list Path) : list string :=
  match paths with
  | [] => []
  | p :: rest => progress_msg i total p :: progress_msgs total (S i) rest
  end.

(** The ERROR records owed to a list of outcomes: one for each failure of
    class [Exception], naming its path and carrying the exception. *)
Fixpoint failure_records (l : list (Path * Result unit)) : list Event :=
  match l with
  | [] => []
  | (p, Raised e) :: l' =>
      if err_is_Exception e
      then EvLog ERROR (failure_msg p) (Some e) :: failure_records l'
      else failure_records l'
  | (_, Normal _) :: l' => failure_records l'
  end.

(** A child the scan appends when it meets it first: a directory whose
    stem is not [_ocr] and that is not among the explicit paths. *)
Definition eligible (env : Env) (explicit : list Path) (p : Path) : bool :=
  is_dir env p && negb (String.eqb (stem p) "_ocr")
  && negb (contains explicit p).

(** Whether the run reaches the prompt: confirmation is not disabled and
    resolution returns a list that is not empty. *)
Definition asks (env : Env) (a : Args) : bool :=
  negb (disable_confirmation a)
  && match resolve env (paths a) (parent_dir a) with
     | Normal (_ :: _) => true
     | _ => false
     end.

(** The list the loop works on: the resolved paths in natural order;
    empty when resolution raises. *)
Definition working_set (env : Env) (a : Args) : list Path :=
  match resolve env (paths a) (parent_dir a) with
  | Normal ps => natsorted ps
  | Raised _ => []
  end.

(** What lines 82-84 print: nothing unless resolution returns a list that
    is not empty, else the header and the paths in natural order. *)
Definition listing_text (env : Env) (a : Args) : list string :=
  match resolve env (paths a) (parent_dir a) with
  | Normal (p :: ps) =>
      (PyStr.nl ++ "Paths to process:" ++ PyStr.nl)%string
      :: map PurePath.str (natsorted (p :: ps))
  | _ => []
  end.

(** The ERROR record of line 77, written exactly when resolution returns
    the empty list. *)
Definition no_paths_record (env : Env) (a : Args) : list Event :=
  match resolve env (paths a) (parent_dir a) with
  | Normal [] => [EvLog ERROR no_paths_msg None]
  | _ => []
  end.

(** A name that [Path] keeps as one relative component. *)
Definition simple_name (n : string) : bool :=
  negb (String.eqb n "") && negb (String.eqb n ".")
  && negb (PyStr.starts_with_char "~" n)
  && forallb (fun c => negb (Ascii.eqb c "/")) (list_ascii_of_string n).

(** *** Printing on a terminal that can raise *)

Section Printing.
Context {T : Terminal}.

(** The exception of the first string of [l] that [print] raises on. *)
Fixpoint print_failure (l : list string) : option PyErr :=
  match l with
  | [] => None
  | s :: l' =>
      match print_error s with
      | Some e => Some e
      | None => print_failure l'
      end
  end.

(** The strings of [l] written before that. *)
Fixpoint printed_prefix (l : list string) : list string :=
  match l with
  | [] => []
  | s :: l' =>
      match print_error s with
      | Some _ => []
      | None => s :: printed_prefix l'
      end
  end.

(** Whether the run gets to the prompt: confirmation is not disabled,
    resolution returns a list that is not empty, and the listing is
    printed without an exception. *)
Definition reaches_prompt (env : Env) (a : Args) : bool :=
  asks env a
  && match print_failure (listing_text env a) with
     | None => true
     | Some _ => false
     end.

End Printing.

(** *** Names with numbers *)






(** [x] stands before [y] in [l]. *)
Definition before {A : Type} (x y : A) (l : list A) : Prop :=
  exists l1 l2 l3, l = l1 ++ x :: l2 ++ y :: l3.

(** *** Volumes and processors for the examples *)

(** Two volumes given explicitly, and the processors used below. *)
Definition v1 : Path := mkPath "/" ["v1"].
Definition v2 : Path := mkPath "/" ["v2"].

Definition fails_on (bad : Path) (e : PyErr) : VolumeProcessor nat :=
  scripted (fun p => if PurePath.eqb p bad then Raised e else Normal tt).

(** *** Terminals for the examples *)

(** A string of ASCII characters. *)
Definition is_ascii (s : string) : bool :=
  forallb (fun c => (nat_of_ascii c <? 128)%nat) (list_ascii_of_string s).

(** A terminal whose encoding is ASCII: [print] raises on any other
    string. *)
Definition ascii_terminal : Terminal :=
  {| print_error := fun s =>
       if is_ascii s then None
       else Some (UnicodeEncodeError "'ascii' codec can't encode character");
     input_error := fun _ => None |}.

(** A terminal at which the prompt is answered with Ctrl-C. *)
Definition interrupted_terminal : Terminal :=
  {| print_error := fun _ => None;
     input_error := fun lines => Some (KeyboardInterrupt, lines) |}.

(** A name that is not ASCII: a [v] and the byte 233. *)
Definition accented : string := String "v" (String (ascii_of_nat 233) "").

(* ================================================================== *)
(** * Properties *)

(** ** Reading traces *)

Lemma attempted_app (t1 t2 : list Event) :
  attempted (t1 ++ t2) = attempted t1 ++ attempted t2.
Proof.
  induction t1 as [|ev t1 IH]; [reflexivity|].
  destruct ev; simpl; rewrite IH; reflexivity.
Qed.

Lemma outcomes_app (t1 t2 : list Event) :
  outcomes (t1 ++ t2) = outcomes t1 ++ outcomes t2.
Proof.
  induction t1 as [|ev t1 IH]; [reflexivity|].
  destruct ev; simpl; rewrite IH; reflexivity.
Qed.

Lemma attempted_outcomes (t : list Event) :
  attempted t = map fst (outcomes t).
Proof.
  induction t as [|ev t IH]; [reflexivity|].
  destruct ev; simpl; rewrite ?IH; reflexivity.
Qed.

Lemma successes_failures (t : list Event) :
  successes t + failures t = List.length (attempted t).
Proof.
  rewrite attempted_outcomes, length_map.
  unfold successes, failures.
  induction (outcomes t) as [|[p r] l IH]; [reflexivity|].
  simpl. destruct (failed r); simpl; lia.
Qed.

Lemma world_eta {Ext} (w : World Ext) :
  mkWorld (trace w) (stdin w) (ext w) = w.
Proof. destruct w; reflexivity. Qed.

(** ** The per-volume loop *)

Section Loop.
Context {Ext : Type} `{VP : VolumeProcessor Ext}.
Variables (ovg : OverlayGenerator) (flag : bool) (total : nat).

(** One turn of the loop, case by case on what [process_dir] does. *)
Lemma process_all_cons (i : nat) (path : Path) (rest : list Path)
    (n : nat) (w : World Ext) :
  process_all ovg flag total i (path :: rest) n w =
  let r := fst (process_dir ovg path flag (ext w)) in
  let x := snd (process_dir ovg path flag (ext w)) in
  let t := trace w ++ [EvLog INFO (progress_msg i total path) None;
                       EvProcessDir ovg path flag r] in
  match r with
  | Normal _ =>
      process_all ovg flag total (S i) rest (n + 1) (mkWorld t (stdin w) x)
  | Raised e =>
      if err_is_Exception e then
        process_all ovg flag total (S i) rest n
          (mkWorld (t ++ [EvLog ERROR (failure_msg path) (Some e)])
                   (stdin w) x)
      else (Raised e, mkWorld t (stdin w) x)
  end.
Proof.
  cbn [process_all].
  unfold bind, logger_info, logger_exception, emit, ret,
    try_except_Exception_else, call_process_dir.
  cbn [trace stdin ext].
  destruct (process_dir ovg path flag (ext w)) as [[u|e] x];
    cbn [fst snd trace stdin ext].
  - rewrite <- !app_assoc. reflexivity.
  - destruct (err_is_Exception e); rewrite <- !app_assoc; reflexivity.
Qed.

(** A failure of class [Exception] is logged with its path, and the loop
    goes on with the next index and the same count. *)
Lemma process_all_Exception_step (i : nat) (path : Path) (rest : list Path)
    (n : nat) (w : World Ext) (e : PyErr) :
  fst (process_dir ovg path flag (ext w)) = Raised e ->
  err_is_Exception e = true ->
  process_all ovg flag total i (path :: rest) n w =
  process_all ovg flag total (S i) rest n
    (mkWorld (trace w ++ [EvLog INFO (progress_msg i total path) None;
                          EvProcessDir ovg path flag (Raised e);
                          EvLog ERROR (failure_msg path) (Some e)])
             (stdin w) (snd (process_dir ovg path flag (ext w)))).
Proof.
  intros Hp He. rewrite process_all_cons. cbv zeta.
  rewrite Hp, He, <- app_assoc. reflexivity.
Qed.

(** When every failure is one that [except Exception] handles, the loop
    runs to its end: every path is handed to [process_dir] once, in
    order, every failure leaves its ERROR record, and the count returned
    has grown by the number of calls that returned. *)
Lemma process_all_isolated (paths : list Path) :
  forall (i n : nat) (w : World Ext),
    forallb catchable (volume_outcomes ovg flag paths (ext w)) = true ->
    exists evs,
      process_all ovg flag total i paths n w =
        (Normal (n + successes evs),
         mkWorld (trace w ++ evs) (stdin w)
                 (ext_after ovg flag paths (ext w)))
      /\ attempted evs = paths
      /\ map snd (outcomes evs) = volume_outcomes ovg flag paths (ext w)
      /\ (forall p e, In (p, Raised e) (outcomes evs) ->
                      In (EvLog ERROR (failure_msg p) (Some e)) evs)
      /\ List.length (error_records evs) = failures evs
      /\ filter is_summary evs = [].
Proof.
  induction paths as [|p rest IH]; intros i n w Hc.
  - exists []. cbn. rewrite app_nil_r, Nat.add_0_r, world_eta.
    repeat split; try reflexivity. intros p e [].
  - rewrite process_all_cons. cbv zeta.
    cbn [volume_outcomes ext_after] in Hc |- *.
    destruct (process_dir ovg p flag (ext w)) as [r x] eqn:Hp.
    cbn [fst snd forallb] in Hc |- *.
    apply andb_true_iff in Hc as [Hr Hrest].
    destruct r as [u|e].
    + destruct (IH (S i) (n + 1) (mkWorld
          (trace w ++ [EvLog INFO (progress_msg i total p) None;
                       EvProcessDir ovg p flag (Normal u)]) (stdin w) x)
          Hrest) as (evs & Heq & Hatt & Hout & Hlog & Herr & Hsum).
      exists (EvLog INFO (progress_msg i total p) None
              :: EvProcessDir ovg p flag (Normal u) :: evs).
      rewrite Heq. cbn [trace stdin ext]. rewrite <- app_assoc.
      repeat split.
      * unfold successes. cbn. f_equal. f_equal. lia.
      * cbn. now rewrite Hatt.
      * cbn. now rewrite Hout.
      * intros q e [Hq|Hq]; [discriminate|].
        right. right. now apply Hlog.
      * exact Herr.
      * exact Hsum.
    + cbn in Hr. rewrite Hr.
      destruct (IH (S i) n (mkWorld
          ((trace w ++ [EvLog INFO (progress_msg i total p) None;
                        EvProcessDir ovg p flag (Raised e)])
             ++ [EvLog ERROR (failure_msg p) (Some e)]) (stdin w) x)
          Hrest) as (evs & Heq & Hatt & Hout & Hlog & Herr & Hsum).
      exists (EvLog INFO (progress_msg i total p) None
              :: EvProcessDir ovg p flag (Raised e)
              :: EvLog ERROR (failure_msg p) (Some e) :: evs).
      rewrite Heq. cbn [trace stdin ext]. rewrite <- !app_assoc.
      repeat split.
      * cbn. now rewrite Hatt.
      * cbn. now rewrite Hout.
      * intros q e' [Hq|Hq].
        -- injection Hq as -> ->. right. right. now left.
        -- right. right. right. now apply Hlog.
      * unfold failures, error_records in *. cbn. now rewrite Herr.
      * exact Hsum.
Qed.

(** The first failure that [except Exception] does not handle ends the
    loop there: the exception leaves the loop, the paths after it are not
    handed to [process_dir], and nothing is logged after the call. *)
Lemma process_all_abort (pre : list Path) :
  forall (path : Path) (rest : list Path) (e : PyErr) (i n : nat)
         (w : World Ext),
    forallb catchable (volume_outcomes ovg flag pre (ext w)) = true ->
    fst (process_dir ovg path flag (ext_after ovg flag pre (ext w)))
      = Raised e ->
    err_is_Exception e = false ->
    exists evs,
      process_all ovg flag total i (pre ++ path :: rest) n w =
        (Raised e,
         mkWorld (trace w ++ evs ++ [EvProcessDir ovg path flag (Raised e)])
                 (stdin w)
                 (snd (process_dir ovg path flag
                         (ext_after ovg flag pre (ext w)))))
      /\ attempted evs = pre
      /\ filter is_summary evs = [].
Proof.
  induction pre as [|p pre IH]; intros path rest e i n w Hc Hp He.
  - exists [EvLog INFO (progress_msg i total path) None].
    cbn [app]. rewrite process_all_cons. cbv zeta.
    cbn [ext_after] in Hp |- *.
    rewrite Hp, He. repeat split.
  - cbn [app]. rewrite process_all_cons. cbv zeta.
    cbn [volume_outcomes ext_after] in Hc, Hp |- *.
    destruct (process_dir ovg p flag (ext w)) as [r x] eqn:Hq.
    cbn [fst snd forallb] in Hc, Hp |- *.
    apply andb_true_iff in Hc as [Hr Hrest].
    destruct r as [u|e0].
    + destruct (IH path rest e (S i) (n + 1) (mkWorld
          (trace w ++ [EvLog INFO (progress_msg i total p) None;
                       EvProcessDir ovg p flag (Normal u)]) (stdin w) x)
          Hrest Hp He) as (evs & Heq & Hatt & Hsum).
      exists (EvLog INFO (progress_msg i total p) None
              :: EvProcessDir ovg p flag (Normal u) :: evs).
      rewrite Heq. cbn [trace stdin ext]. rewrite <- app_assoc.
      repeat split.
      * cbn. now rewrite Hatt.
      * exact Hsum.
    + cbn in Hr. rewrite Hr.
      destruct (IH path rest e (S i) n (mkWorld
          ((trace w ++ [EvLog INFO (progress_msg i total p) None;
                        EvProcessDir ovg p flag (Raised e0)])
             ++ [EvLog ERROR (failure_msg p) (Some e0)]) (stdin w) x)
          Hrest Hp He) as (evs & Heq & Hatt & Hsum).
      exists (EvLog INFO (progress_msg i total p) None
              :: EvProcessDir ovg p flag (Raised e0)
              :: EvLog ERROR (failure_msg p) (Some e0) :: evs).
      rewrite Heq. cbn [trace stdin ext]. rewrite <- !app_assoc.
      repeat split.
      * cbn. now rewrite Hatt.
      * exact Hsum.
Qed.

End Loop.

(** ** Fault isolation (lines 98-108) *)

(** C1, as stated, fails: when [process_dir] raises [KeyboardInterrupt] on
    the first of two confirmed volumes, the exception leaves [run], the
    second volume is never attempted and no ERROR record is written. *)
Lemma C1_interrupt_propagates :
  let out := @run nat (fails_on v1 KeyboardInterrupt) plain_terminal
               (lib_env [])
               (default_args ["/v1"; "/v2"]) (start ["y"] 0) in
  fst out = Raised KeyboardInterrupt
  /\ attempted (trace (snd out)) = [v1]
  /\ error_records (trace (snd out)) = [].
Proof. vm_compute. repeat split. Qed.

(** C2, as stated, fails: with two volumes of which the last one fails by
    raising [SystemExit], both are attempted once, in order, and exactly
    one of the two invocations fails, yet no succeeded count is reported:
    the exception leaves [run] before the summary. *)
Lemma C2_no_summary_after_SystemExit :
  let out := @run nat (fails_on v2 (SystemExit "1")) plain_terminal (lib_env [])
               (default_args ["/v1"; "/v2"]) (start ["y"] 0) in
  attempted (trace (snd out)) = [v1; v2]
  /\ failures (trace (snd out)) = 1
  /\ fst out = Raised (SystemExit "1")
  /\ filter is_summary (trace (snd out)) = [].
Proof. vm_compute. repeat split. Qed.

(** C2 (amended): for every working set of size N in which exactly k of
    the N invocations fail, each with an error of the ordinary class
    [Exception], the runner attempts each path exactly once, in the order
    of the working set, and the summary it ends with reports N-k out of N,
    with N-k <= N. *)
Theorem C2_attempts_all_and_counts {Ext : Type} `{VolumeProcessor Ext}
    (a : Args) (paths : list Path) (w : World Ext) (k : nat) :
  let rs := volume_outcomes (make_ovg a) (as_one_file a) paths (ext w) in
  forallb catchable rs = true ->
  List.length (filter failed rs) = k ->
  exists evs,
    process_volumes a paths w =
      (Normal tt,
       mkWorld (trace w ++ evs
                ++ [EvLog INFO
                      (summary_msg (List.length paths - k) (List.length paths))
                      None])
               (stdin w)
               (ext_after (make_ovg a) (as_one_file a) paths (ext w)))
    /\ attempted evs = paths
    /\ map snd (outcomes evs) = rs
    /\ failures evs = k
    /\ k <= List.length paths
    /\ List.length paths - k <= List.length paths.
Proof.
  intros rs Hc Hk.
  destruct (process_all_isolated (make_ovg a) (as_one_file a)
              (List.length paths) paths 0 0 w Hc)
    as (evs & Heq & Hatt & Hout & _ & _ & _).
  assert (Hf : failures evs = k).
  { unfold failures. rewrite <- Hk. fold rs in Hout. rewrite <- Hout.
    clear. induction (outcomes evs) as [|[p r] l IH]; [reflexivity|].
    cbn. destruct (failed r); cbn; now rewrite IH. }
  pose proof (successes_failures evs) as Hsf. rewrite Hatt in Hsf.
  exists evs.
  unfold process_volumes, bind, logger_info, emit. unfold make_ovg in *.
  rewrite Heq. cbn [trace stdin ext]. rewrite <- app_assoc.
  replace (0 + successes evs) with (List.length paths - k) by lia.
  repeat split; try assumption; lia.
Qed.

Lemma C2_attempts_all_and_counts_witness :
  exists evs,
    @process_volumes nat (fails_on v1 (RuntimeError "boom"))
      (default_args []) [v1; v2] (start [] 0) =
      (Normal tt,
       mkWorld ([] ++ evs ++ [EvLog INFO (summary_msg (2 - 1) 2) None]) [] 2)
    /\ attempted evs = [v1; v2]
    /\ map snd (outcomes evs) = [Raised (RuntimeError "boom"); Normal tt]
    /\ failures evs = 1
    /\ 1 <= 2
    /\ 2 - 1 <= 2.
Proof.
  apply (@C2_attempts_all_and_counts nat (fails_on v1 (RuntimeError "boom"))
           (default_args []) [v1; v2] (start [] 0) 1); reflexivity.
Defined.

(** C10: isolation covers the class [Exception] only.  When the volumes
    before [path] return or fail with ordinary exceptions and [process_dir]
    raises on [path] an exception [e] outside that class, [e] leaves the
    runner: the volumes after [path] are not attempted, the last thing
    recorded is the failing call, and no summary is logged. *)
Theorem C10_other_exceptions_abort {Ext : Type} `{VolumeProcessor Ext}
    (a : Args) (pre : list Path) (path : Path) (rest : list Path)
    (e : PyErr) (w : World Ext) :
  let ovg := make_ovg a in
  let x := ext_after ovg (as_one_file a) pre (ext w) in
  forallb catchable (volume_outcomes ovg (as_one_file a) pre (ext w)) = true ->
  fst (process_dir ovg path (as_one_file a) x) = Raised e ->
  err_is_Exception e = false ->
  exists evs,
    process_volumes a (pre ++ path :: rest) w =
      (Raised e,
       mkWorld (trace w ++ evs
                ++ [EvProcessDir ovg path (as_one_file a) (Raised e)])
               (stdin w)
               (snd (process_dir ovg path (as_one_file a) x)))
    /\ attempted (evs ++ [EvProcessDir ovg path (as_one_file a) (Raised e)])
       = pre ++ [path]
    /\ filter is_summary
         (evs ++ [EvProcessDir ovg path (as_one_file a) (Raised e)]) = [].
Proof.
  intros ovg x Hc Hp He.
  destruct (process_all_abort ovg (as_one_file a)
              (List.length (pre ++ path :: rest)) pre path rest e 0 0 w
              Hc Hp He) as (evs & Heq & Hatt & Hsum).
  exists evs.
  unfold process_volumes, bind. subst ovg x. unfold make_ovg in *.
  rewrite Heq. repeat split.
  - rewrite attempted_app, Hatt. reflexivity.
  - rewrite filter_app, Hsum. reflexivity.
Qed.

Lemma C10_other_exceptions_abort_witness :
  exists evs,
    @process_volumes nat (fails_on v2 KeyboardInterrupt)
      (default_args []) ([v1] ++ v2 :: [mkPath "/" ["v3"]]) (start [] 0) =
      (Raised KeyboardInterrupt,
       mkWorld ([] ++ evs
                ++ [EvProcessDir (make_ovg (default_args [])) v2 true
                      (Raised KeyboardInterrupt)]) [] 2)
    /\ attempted
         (evs ++ [EvProcessDir (make_ovg (default_args [])) v2 true
                    (Raised KeyboardInterrupt)]) = [v1] ++ [v2]
    /\ filter is_summary
         (evs ++ [EvProcessDir (make_ovg (default_args [])) v2 true
                    (Raised KeyboardInterrupt)]) = [].
Proof.
  apply (@C10_other_exceptions_abort nat (fails_on v2 KeyboardInterrupt)
           (default_args []) [v1] v2 [mkPath "/" ["v3"]] KeyboardInterrupt
           (start [] 0)); reflexivity.
Defined.

(** ** Natural sorting (line 80) *)

Section SortFacts.
Context {A : Type} (key : A -> list Chunk).

Lemma insert_Permutation (x : A) (l : list A) :
  Permutation (insert key x l) (x :: l).
Proof.
  induction l as [|y l IH]; cbn; [reflexivity|].
  destruct (key_ltb (key y) (key x)); [|reflexivity].
  rewrite IH. apply perm_swap.
Qed.

Lemma natsorted_by_Permutation (l : list A) :
  Permutation (natsorted_by key l) l.
Proof.
  induction l as [|x l IH]; cbn; [reflexivity|].
  rewrite insert_Permutation. now apply perm_skip.
Qed.
End SortFacts.

Lemma natsorted_Permutation (l : list Path) : Permutation (natsorted l) l.
Proof. apply natsorted_by_Permutation. Qed.

Lemma natsorted_nil_iff (l : list Path) : natsorted l = [] <-> l = [].
Proof.
  split; intros E.
  - apply Permutation_nil. rewrite <- E. apply natsorted_Permutation.
  - now subst.
Qed.


Lemma chunk_eqb_sym (x y : Chunk) : chunk_eqb x y = chunk_eqb y x.
Proof.
  destruct x, y; cbn; try reflexivity;
    [apply String.eqb_sym | apply N.eqb_sym].
Qed.

Lemma chunk_ltb_asym (x y : Chunk) :
  chunk_ltb x y = true -> chunk_ltb y x = false.
Proof.
  destruct x as [s|n], y as [t|m]; cbn; try discriminate.
  - unfold String.ltb. rewrite (String.compare_antisym s t).
    destruct (String.compare t s); cbn; congruence.
  - rewrite N.ltb_lt, N.ltb_ge. lia.
Qed.

(** [<] on keys is asymmetric. *)
Lemma key_ltb_asym (a : list Chunk) :
  forall b, key_ltb a b = true -> key_ltb b a = false.
Proof.
  induction a as [|x a IH]; intros [|y b]; cbn; try congruence.
  rewrite (chunk_eqb_sym y x).
  destruct (chunk_eqb x y); [apply IH | apply chunk_ltb_asym].
Qed.

Section SortedFacts.
Context {A : Type} (key : A -> list Chunk).

Lemma insert_Sorted (x : A) (l : list A) :
  Sorted (key_le key) l -> Sorted (key_le key) (insert key x l).
Proof.
  induction l as [|y l IH]; intros Hs; cbn.
  - repeat constructor.
  - destruct (key_ltb (key y) (key x)) eqn:Hyx.
    + apply Sorted_inv in Hs as [Hs Hhd]. constructor; [now apply IH|].
      destruct l as [|z l]; cbn.
      * constructor. now apply key_ltb_asym.
      * destruct (key_ltb (key z) (key x)).
        -- constructor. now inversion Hhd.
        -- constructor. now apply key_ltb_asym.
    + constructor; [assumption|]. now constructor.
Qed.

Lemma natsorted_by_Sorted (l : list A) :
  Sorted (key_le key) (natsorted_by key l).
Proof.
  induction l as [|x l IH]; cbn; [constructor | now apply insert_Sorted].
Qed.
End SortedFacts.

(** [natsorted] returns its input rearranged in non-decreasing key order. *)
Lemma natsorted_Sorted (l : list Path) :
  Sorted (key_le (fun p => natsort_key (PurePath.str p))) (natsorted l).
Proof. apply natsorted_by_Sorted. Qed.

(** *** Keys of strings never compare a string to a number *)

Lemma runs_alternate (s : string) : alternate (runs s) = true.
Proof.
  induction s as [|c s IH]; [reflexivity|].
  cbn [runs]. destruct (runs s) as [|[b r] t]; [reflexivity|].
  destruct (Bool.eqb b (is_digit c)) eqn:E.
  - destruct t; [reflexivity | exact IH].
  - cbn [alternate fst].
    replace (Bool.eqb (is_digit c) b) with false
      by (destruct (is_digit c), b; cbn in *; congruence).
    exact IH.
Qed.

Lemma sep_between_cons2 (x y : Chunk) (l : list Chunk) :
  sep_between (x :: y :: l) =
  if is_num x && is_num y then x :: CStr "" :: sep_between (y :: l)
  else x :: sep_between (y :: l).
Proof. reflexivity. Qed.

Lemma is_num_component (b : bool) (r : string) : is_num (component (b, r)) = b.
Proof. destruct b; reflexivity. Qed.

Lemma sep_between_alternate (l : list (bool * string)) :
  alternate l = true ->
  sep_between (map component l) = map component l
  /\ shape (hd false (map fst l)) (map component l) = true.
Proof.
  induction l as [|[b r] l IH]; intros Ha; [split; reflexivity|].
  destruct l as [|[b' r'] l'].
  - split; [reflexivity|]. cbn [map hd fst shape].
    now rewrite is_num_component, Bool.eqb_reflx.
  - cbn [alternate fst] in Ha. apply andb_true_iff in Ha as [Hb Ha].
    destruct (IH Ha) as [IH1 IH2].
    assert (Hbb : negb b = b') by (destruct b, b'; cbn in *; congruence).
    change (map component ((b, r) :: (b', r') :: l'))
      with (component (b, r) :: map component ((b', r') :: l')).
    split.
    + change (map component ((b', r') :: l'))
        with (component (b', r') :: map component l') in *.
      rewrite sep_between_cons2, !is_num_component, IH1.
      destruct b, b'; cbn in *; congruence.
    + cbn [hd map fst] in IH2 |- *. cbn [shape].
      rewrite is_num_component, Bool.eqb_reflx, Hbb. exact IH2.
Qed.

Lemma key_shape (s : string) : shape false (natsort_key s) = true.
Proof.
  unfold natsort_key, sep_inserter.
  destruct (sep_between_alternate (runs s) (runs_alternate s)) as [E Hs].
  rewrite E.
  destruct (runs s) as [|[b r] l]; [reflexivity|].
  cbn [map hd fst] in Hs |- *.
  destruct b; cbn [component fst snd] in *.
  - cbn [shape is_num negb]. exact Hs.
  - exact Hs.
Qed.

Lemma shape_comparable (a : list Chunk) :
  forall w b, shape w a = true -> shape w b = true -> same_kinds a b = true.
Proof.
  induction a as [|x a IH]; intros w [|y b] Ha Hb; try reflexivity.
  cbn in *. apply andb_true_iff in Ha as [Hx Ha].
  apply andb_true_iff in Hb as [Hy Hb].
  apply Bool.eqb_prop in Hx, Hy. rewrite Hx, Hy, Bool.eqb_reflx.
  now apply (IH (negb w)).
Qed.

Lemma natsort_keys_comparable (s t : string) :
  same_kinds (natsort_key s) (natsort_key t) = true.
Proof. apply (shape_comparable _ false); apply key_shape. Qed.

(** *** Numeric runs compare by value *)









(** *** The string form of a child path *)









(** ** Resolution (lines 69-74) *)

Lemma contains_In (paths : list Path) (p : Path) :
  contains paths p = true <-> In p paths.
Proof.
  induction paths as [|q paths IH]; cbn; [split; [discriminate | tauto]|].
  unfold PurePath.eqb. destruct (Path_eq_dec q p) as [->|Hne]; cbn.
  - split; auto.
  - rewrite IH. split; [auto | intros [E|Hin]; [contradiction | assumption]].
Qed.

(** What the scan appends: directories among the children, with a stem
    other than [_ocr], absent from the list so far, and each only once. *)
Lemma scan_spec (env : Env) (children : list Path) :
  forall paths,
  exists added,
    scan env children paths = paths ++ added
    /\ Forall (fun p => is_dir env p = true /\ stem p <> "_ocr"
                        /\ In p children /\ ~ In p paths) added
    /\ NoDup added.
Proof.
  induction children as [|p rest IH]; intros paths.
  - exists []. rewrite app_nil_r. repeat split; constructor.
  - cbn [scan].
    destruct (is_dir env p && negb (stem p =? "_ocr")%string
              && negb (contains paths p)) eqn:Hc.
    + apply andb_true_iff in Hc as [Hc Hin].
      apply andb_true_iff in Hc as [Hd Hs].
      apply negb_true_iff in Hs, Hin. apply String.eqb_neq in Hs.
      assert (Hnin : ~ In p paths)
        by (rewrite <- contains_In; congruence).
      destruct (IH (paths ++ [p])) as (added & Heq & Hall & Hnd).
      exists (p :: added). rewrite Heq, <- app_assoc. split; [reflexivity|].
      rewrite Forall_forall in Hall. split.
      * constructor; [repeat split; auto; now left|].
        apply Forall_forall. intros q Hq.
        destruct (Hall q Hq) as (H1 & H2 & H3 & H4).
        repeat split; auto; [now right|].
        intros Hq'. apply H4, in_or_app. now left.
      * constructor; [|assumption]. intros Hp.
        destruct (Hall p Hp) as (_ & _ & _ & H4).
        apply H4, in_or_app. right. now left.
    + destruct (IH paths) as (added & Heq & Hall & Hnd).
      exists added. split; [assumption|]. split; [|assumption].
      eapply Forall_impl; [|exact Hall]. cbn.
      intros q (H1 & H2 & H3 & H4). repeat split; auto; now right.
Qed.

(** The list after resolution is the normalised explicit paths followed by
    what the scan appended. *)
Lemma resolve_spec (env : Env) (ps : list string) (parent : option string)
    (explicit l : list Path) :
  normalize_all env ps = Normal explicit ->
  resolve env ps parent = Normal l ->
  exists added,
    l = explicit ++ added
    /\ Forall (fun p => stem p <> "_ocr" /\ ~ In p explicit) added
    /\ NoDup added
    /\ (parent = None -> added = []).
Proof.
  unfold resolve. intros -> Hr. destruct parent as [d|].
  - destruct (normalize env d) as [dir|e]; [|discriminate].
    destruct (Pathlib.iterdir env dir) as [children|e]; [|discriminate].
    injection Hr as <-.
    destruct (scan_spec env children explicit) as (added & Heq & Hall & Hnd).
    exists added. repeat split; try assumption; [|discriminate].
    eapply Forall_impl; [|exact Hall]. cbn. tauto.
  - injection Hr as <-. exists []. rewrite app_nil_r.
    repeat split; constructor.
Qed.

Lemma name_child (d : Path) (n : string) :
  PurePath.name (make_child_relpath d n) = n.
Proof. unfold PurePath.name, make_child_relpath. cbn. apply last_last. Qed.

Lemma stem_of_name (p : Path) (n : string) :
  PurePath.name p = n -> stem p = stem (mkPath "" [n]).
Proof. intros <-. reflexivity. Qed.

(** C4, as stated, fails: the same explicit path given twice stays twice
    in the working set, and the volume is processed twice. *)
Lemma C4_explicit_duplicates_kept :
  let out := @run nat always_ok plain_terminal (lib_env [])
               (default_args ["/v1"; "/v1"]) (start ["y"] 0) in
  resolve (lib_env []) ["/v1"; "/v1"] None = Normal [v1; v1]
  /\ natsorted [v1; v1] = [v1; v1]
  /\ ~ NoDup (natsorted [v1; v1])
  /\ attempted (trace (snd out)) = [v1; v1].
Proof.
  cbv zeta. repeat split; try reflexivity.
  intros Hnd. change (natsorted [v1; v1]) with [v1; v1] in Hnd.
  inversion Hnd as [|? ? Hin _]. apply Hin. now left.
Qed.

(** C4 (amended): for every combination of explicit paths and optional
    parent directory, when the explicit paths are pairwise distinct after
    normalisation, the working set has no duplicate: the scan appends no
    path that is already present. *)
Theorem C4_no_duplicates (env : Env) (ps : list string)
    (parent : option string) (explicit l : list Path) :
  normalize_all env ps = Normal explicit ->
  resolve env ps parent = Normal l ->
  NoDup explicit ->
  NoDup (natsorted l).
Proof.
  intros Hn Hr Hnd.
  destruct (resolve_spec env ps parent explicit l Hn Hr)
    as (added & -> & Hall & Hadd & _).
  apply (Permutation_NoDup (l := explicit ++ added)).
  - symmetry. apply natsorted_Permutation.
  - apply NoDup_app; try assumption.
    intros p Hp Hin. rewrite Forall_forall in Hall.
    now destruct (Hall p Hin).
Qed.

Lemma C4_no_duplicates_witness :
  NoDup (natsorted [mkPath "/" ["lib"; "vol1"]; mkPath "/" ["lib"; "vol2"]]).
Proof.
  apply (C4_no_duplicates (lib_env ["vol2"; "vol1"; "_ocr"]) ["/lib/vol1"]
           (Some "/lib") [mkPath "/" ["lib"; "vol1"]]
           [mkPath "/" ["lib"; "vol1"]; mkPath "/" ["lib"; "vol2"]]).
  - reflexivity.
  - reflexivity.
  - repeat constructor. intros [].
Defined.

(** C8: in every parent-directory scan, a child whose base name is the
    reserved name [_ocr] is never appended: what resolution returns is the
    explicit paths followed by paths whose base name is not [_ocr], so a
    path named [_ocr] is in the working set only if it was given
    explicitly. *)
Theorem C8_reserved_name_not_added (env : Env) (ps : list string)
    (d : string) (explicit l : list Path) :
  normalize_all env ps = Normal explicit ->
  resolve env ps (Some d) = Normal l ->
  (exists added,
      l = explicit ++ added
      /\ Forall (fun p => PurePath.name p <> "_ocr") added)
  /\ (forall p, PurePath.name p = "_ocr" ->
                In p (natsorted l) -> In p explicit).
Proof.
  intros Hn Hr.
  destruct (resolve_spec env ps (Some d) explicit l Hn Hr)
    as (added & -> & Hall & _ & _).
  assert (Hname : Forall (fun p => PurePath.name p <> "_ocr") added).
  { eapply Forall_impl; [|exact Hall]. cbn. intros p [Hs _] Hp.
    apply Hs. now rewrite (stem_of_name p "_ocr" Hp). }
  split; [now exists added|].
  intros p Hp Hin.
  apply (Permutation_in _ (natsorted_Permutation _)) in Hin.
  apply in_app_or in Hin as [Hin|Hin]; [assumption|].
  rewrite Forall_forall in Hname. now destruct (Hname p Hin).
Qed.

Lemma C8_reserved_name_not_added_witness :
  (exists added,
      [mkPath "/" ["lib"; "vol1"]] = [] ++ added
      /\ Forall (fun p => PurePath.name p <> "_ocr") added)
  /\ (forall p, PurePath.name p = "_ocr" ->
                In p (natsorted [mkPath "/" ["lib"; "vol1"]]) -> In p []).
Proof.
  apply (C8_reserved_name_not_added (lib_env ["_ocr"; "vol1"]) []
           "/lib" [] [mkPath "/" ["lib"; "vol1"]]); reflexivity.
Defined.

(** C9: the scan tests the stem, not the base name.  A child whose stem
    (the name without its last suffix) is [_ocr] is never appended: what
    resolution returns is the explicit paths followed by paths whose stem
    is not [_ocr].  A child named [_ocr.bak] has the stem [_ocr], so it is
    left out as well, although its base name is not [_ocr]. *)
Theorem C9_stem_excluded (env : Env) (ps : list string)
    (d : string) (explicit l : list Path) :
  normalize_all env ps = Normal explicit ->
  resolve env ps (Some d) = Normal l ->
  (exists added,
      l = explicit ++ added /\ Forall (fun p => stem p <> "_ocr") added)
  /\ (forall p, stem p = "_ocr" -> In p (natsorted l) -> In p explicit)
  /\ (forall dir,
        stem (make_child_relpath dir "_ocr.bak") = "_ocr"
        /\ PurePath.name (make_child_relpath dir "_ocr.bak") <> "_ocr").
Proof.
  intros Hn Hr.
  destruct (resolve_spec env ps (Some d) explicit l Hn Hr)
    as (added & -> & Hall & _ & _).
  assert (Hstem : Forall (fun p => stem p <> "_ocr") added).
  { eapply Forall_impl; [|exact Hall]. cbn. tauto. }
  split; [now exists added|]. split.
  - intros p Hp Hin.
    apply (Permutation_in _ (natsorted_Permutation _)) in Hin.
    apply in_app_or in Hin as [Hin|Hin]; [assumption|].
    rewrite Forall_forall in Hstem. now destruct (Hstem p Hin).
  - intros dir. split.
    + now rewrite (stem_of_name _ "_ocr.bak" (name_child dir "_ocr.bak")).
    + rewrite name_child. discriminate.
Qed.

Lemma C9_stem_excluded_witness :
  (exists added,
      [mkPath "/" ["lib"; "vol1"]] = [] ++ added
      /\ Forall (fun p => stem p <> "_ocr") added)
  /\ (forall p, stem p = "_ocr" ->
                In p (natsorted [mkPath "/" ["lib"; "vol1"]]) -> In p [])
  /\ (forall dir,
        stem (make_child_relpath dir "_ocr.bak") = "_ocr"
        /\ PurePath.name (make_child_relpath dir "_ocr.bak") <> "_ocr").
Proof.
  apply (C9_stem_excluded (lib_env ["_ocr.bak"; "vol1"]) []
           "/lib" [] [mkPath "/" ["lib"; "vol1"]]); reflexivity.
Defined.

(** ** The run up to the confirmation (lines 66-89) *)

Section RunStart.
Context {Ext : Type} `{VP : VolumeProcessor Ext} {T : Terminal}.

(** [run] up to the confirmation, on any terminal. *)
Lemma run_unfold (env : Env) (a : Args) (w : World Ext) :
  run env a w =
  match resolve env (paths a) (parent_dir a) with
  | Raised e => (Raised e, noted a w)
  | Normal [] =>
      (Normal tt,
       mkWorld (trace w ++ ocr_note a ++ [EvLog ERROR no_paths_msg None])
               (stdin w) (ext w))
  | Normal ps => confirm_and_process a ps (noted a w)
  end.
Proof.
  unfold run, bind, lift, noted, ocr_note.
  destruct (disable_ocr a);
    unfold logger_info, logger_error, emit, ret; cbn [trace stdin ext];
    rewrite ?app_nil_r, ?world_eta;
    destruct (resolve env (paths a) (parent_dir a)) as [[|p ps]|e];
    cbn; rewrite <- ?app_assoc; reflexivity.
Qed.

End RunStart.

Section RunFacts.
Context {Ext : Type} `{VP : VolumeProcessor Ext}.

(** On the plain terminal [print] writes and [input] reads. *)
Lemma print_plain (s : string) (w : World Ext) :
  print s w
  = (Normal tt, mkWorld (trace w ++ [EvPrint s]) (stdin w) (ext w)).
Proof. reflexivity. Qed.

Lemma input_plain (prompt : string) (w : World Ext) :
  input prompt w
  = match stdin w with
    | line :: rest =>
        (Normal line,
         mkWorld (trace w ++ [EvInput prompt (Some line)]) rest (ext w))
    | [] =>
        (Raised EOFError,
         mkWorld (trace w ++ [EvInput prompt None]) [] (ext w))
    end.
Proof. reflexivity. Qed.

Lemma for_each_print (f : Path -> string) (l : list Path) :
  forall w : World Ext,
    for_each l (fun p => print (f p)) w =
    (Normal tt,
     mkWorld (trace w ++ map (fun p => EvPrint (f p)) l) (stdin w) (ext w)).
Proof.
  induction l as [|p l IH]; intros w; cbn [for_each map].
  - unfold ret. now rewrite app_nil_r, world_eta.
  - unfold bind. rewrite print_plain, IH. cbn [trace stdin ext].
    now rewrite <- app_assoc.
Qed.

(** With a line to read, the confirmation decides between processing the
    sorted list and returning at once. *)
Lemma confirm_and_process_line (a : Args) (ps : list Path)
    (t : list Event) (line : string) (rest : list string) (x : Ext) :
  disable_confirmation a = false ->
  confirm_and_process a ps (mkWorld t (line :: rest) x) =
  let w1 := mkWorld (t ++ listing ps ++ [EvInput prompt_text (Some line)])
                    rest x in
  if affirmative line then process_volumes a (natsorted ps) w1
  else (Normal tt, w1).
Proof.
  intros Hd. unfold confirm_and_process. rewrite Hd. cbn [negb].
  unfold bind at 1. rewrite print_plain. cbn [trace stdin ext].
  unfold bind at 1. rewrite for_each_print. cbn [trace stdin ext].
  unfold bind at 1. rewrite input_plain. cbn [trace stdin ext].
  unfold listing. rewrite <- !app_assoc. cbn [app].
  destruct (affirmative line); reflexivity.
Qed.

(** The loop only adds to the trace. *)
Lemma process_all_extends (ovg : OverlayGenerator) (flag : bool)
    (total : nat) (l : list Path) :
  forall (i n : nat) (w : World Ext),
  exists evs,
    trace (snd (process_all ovg flag total i l n w)) = trace w ++ evs.
Proof.
  induction l as [|p l IH]; intros i n w.
  - exists []. cbn. now rewrite app_nil_r.
  - rewrite process_all_cons. cbv zeta.
    destruct (fst (process_dir ovg p flag (ext w))) as [u|e].
    + destruct (IH (S i) (n + 1) (mkWorld
          (trace w ++ [EvLog INFO (progress_msg i total p) None;
                       EvProcessDir ovg p flag (Normal u)]) (stdin w)
          (snd (process_dir ovg p flag (ext w))))) as [evs Hevs].
      rewrite Hevs. cbn [trace]. rewrite <- app_assoc. eauto.
    + destruct (err_is_Exception e).
      * destruct (IH (S i) n (mkWorld
          ((trace w ++ [EvLog INFO (progress_msg i total p) None;
                        EvProcessDir ovg p flag (Raised e)])
             ++ [EvLog ERROR (failure_msg p) (Some e)]) (stdin w)
          (snd (process_dir ovg p flag (ext w))))) as [evs Hevs].
        rewrite Hevs. cbn [trace]. rewrite <- !app_assoc. eauto.
      * cbn [snd trace]. eauto.
Qed.

Lemma process_all_first (ovg : OverlayGenerator) (flag : bool)
    (total : nat) (p : Path) (l : list Path) (i n : nat) (w : World Ext) :
  exists evs,
    trace (snd (process_all ovg flag total i (p :: l) n w)) =
    (trace w ++ [EvLog INFO (progress_msg i total p) None;
                 EvProcessDir ovg p flag
                   (fst (process_dir ovg p flag (ext w)))]) ++ evs.
Proof.
  rewrite process_all_cons. cbv zeta.
  destruct (fst (process_dir ovg p flag (ext w))) as [u|e].
  - apply process_all_extends.
  - destruct (err_is_Exception e).
    + match goal with
      | |- context [process_all _ _ _ ?j l ?m ?w'] =>
          destruct (process_all_extends ovg flag total l j m w')
            as [evs Hevs]
      end.
      rewrite Hevs. cbn [trace]. rewrite <- app_assoc. eauto.
    + exists []. cbn [snd trace]. now rewrite app_nil_r.
Qed.

(** On a list that is not empty, [process_dir] is called at least once,
    whatever it does. *)
Lemma process_volumes_attempts (a : Args) (p : Path) (l : list Path)
    (w : World Ext) :
  attempted (trace (snd (process_volumes a (p :: l) w))) <> [].
Proof.
  assert (Hcall : forall t1 msg ovg f r t2,
             attempted ((t1 ++ [EvLog INFO msg None; EvProcessDir ovg p f r])
                        ++ t2) <> []).
  { intros t1 msg ovg f r t2. rewrite !attempted_app. cbn. intros E.
    apply app_eq_nil in E as [E _]. apply app_eq_nil in E as [_ E].
    discriminate E. }
  unfold process_volumes, bind. cbv zeta.
  destruct (process_all_first (make_ovg a) (as_one_file a)
              (List.length (p :: l)) p l 0 0 w) as [evs Hevs].
  unfold make_ovg in Hevs.
  destruct (process_all _ _ _ 0 (p :: l) 0 w) as [[n|e] w'];
    cbn [snd] in Hevs |- *.
  - unfold logger_info, emit. cbn [snd trace].
    rewrite Hevs, <- (app_assoc _ evs). apply Hcall.
  - rewrite Hevs. apply Hcall.
Qed.

End RunFacts.

(** ** Empty working set (lines 76-78) *)

(** C5: whenever resolution produces an empty list, the run writes one
    ERROR record ("Found no paths to process..."), returns normally, hands
    no volume to the processor, shows no prompt and reads no input.  With
    no explicit path and no parent directory resolution is empty. *)
Theorem C5_empty_working_set {Ext : Type} `{VolumeProcessor Ext}
    {T : Terminal} (env : Env) (a : Args) (w : World Ext) :
  resolve env (paths a) (parent_dir a) = Normal [] ->
  let new := ocr_note a ++ [EvLog ERROR no_paths_msg None] in
  run env a w = (Normal tt, mkWorld (trace w ++ new) (stdin w) (ext w))
  /\ error_records new = [EvLog ERROR no_paths_msg None]
  /\ attempted new = []
  /\ prompts new = []
  /\ (forall env', resolve env' [] None = Normal []).
Proof.
  intros Hr. cbv zeta. rewrite run_unfold, Hr.
  unfold ocr_note. destruct (disable_ocr a); repeat split.
Qed.

Lemma C5_empty_working_set_witness :
  @run nat always_ok plain_terminal
      (lib_env []) (default_args []) (start ["y"] 0)
  = (Normal tt,
     mkWorld ([] ++ ocr_note (default_args [])
              ++ [EvLog ERROR no_paths_msg None]) ["y"] 0)
  /\ error_records (ocr_note (default_args [])
                    ++ [EvLog ERROR no_paths_msg None])
     = [EvLog ERROR no_paths_msg None]
  /\ attempted (ocr_note (default_args [])
                ++ [EvLog ERROR no_paths_msg None]) = []
  /\ prompts (ocr_note (default_args [])
              ++ [EvLog ERROR no_paths_msg None]) = []
  /\ (forall env', resolve env' [] None = Normal []).
Proof.
  apply (@C5_empty_working_set nat always_ok plain_terminal (lib_env [])
           (default_args []) (start ["y"] 0)).
  reflexivity.
Defined.

(** ** A parent directory that cannot be listed (lines 71-74) *)

(** C7: when the parent directory cannot be enumerated ([os.listdir]
    raises), the exception leaves [run] uncaught.  Nothing but the optional
    note about OCR has happened by then: no listing, no prompt, no input
    read, no volume handed to the processor. *)
Theorem C7_parent_error_propagates {Ext : Type} `{VolumeProcessor Ext}
    {T : Terminal} (env : Env) (a : Args) (d : string) (explicit : list Path)
    (dir : Path) (e : PyErr) (w : World Ext) :
  parent_dir a = Some d ->
  normalize_all env (paths a) = Normal explicit ->
  normalize env d = Normal dir ->
  listdir env dir = Raised e ->
  run env a w
  = (Raised e, mkWorld (trace w ++ ocr_note a) (stdin w) (ext w))
  /\ prompts (ocr_note a) = []
  /\ attempted (ocr_note a) = []
  /\ error_records (ocr_note a) = [].
Proof.
  intros Hp Hn Hd Hl. rewrite run_unfold. unfold resolve, Pathlib.iterdir.
  rewrite Hp, Hn, Hd, Hl. unfold noted, ocr_note.
  destruct (disable_ocr a); repeat split.
Qed.

Lemma C7_parent_error_propagates_witness :
  @run nat always_ok plain_terminal (lib_env ["vol1"])
    (mkArgs ["/v1"] (Some "/missing") "m" false true false false
            true true false false true false false false false)
    (start ["y"] 0)
  = (Raised (FileNotFoundError "/missing"), mkWorld ([] ++ []) ["y"] 0)
  /\ prompts [] = []
  /\ attempted [] = []
  /\ error_records [] = [].
Proof.
  apply (@C7_parent_error_propagates nat always_ok plain_terminal
           (lib_env ["vol1"])
           (mkArgs ["/v1"] (Some "/missing") "m" false true false false
                   true true false false true false false false false)
           "/missing" [v1] (mkPath "/" ["missing"])
           (FileNotFoundError "/missing") (start ["y"] 0)); reflexivity.
Defined.

(** ** The confirmation (lines 86-89) *)

Ltac ascii_cases c :=
  destruct c as [[] [] [] [] [] [] [] []]; vm_compute;
  intros E; try discriminate E; auto.

Lemma lower_char_y (c : ascii) :
  PyStr.lower_char c = "y"%char -> c = "y"%char \/ c = "Y"%char.
Proof. ascii_cases c. Qed.

Lemma lower_char_e (c : ascii) :
  PyStr.lower_char c = "e"%char -> c = "e"%char \/ c = "E"%char.
Proof. ascii_cases c. Qed.

Lemma lower_char_s (c : ascii) :
  PyStr.lower_char c = "s"%char -> c = "s"%char \/ c = "S"%char.
Proof. ascii_cases c. Qed.

Ltac lower_inv :=
  repeat match goal with
  | H : PyStr.lower_char _ = "y"%char |- _ =>
      apply lower_char_y in H as [-> | ->]
  | H : PyStr.lower_char _ = "e"%char |- _ =>
      apply lower_char_e in H as [-> | ->]
  | H : PyStr.lower_char _ = "s"%char |- _ =>
      apply lower_char_s in H as [-> | ->]
  end.

(** The inputs accepted are the case variants of [y] and [yes], and
    nothing else: no surrounding blank is tolerated. *)
Lemma affirmative_inputs (line : string) :
  affirmative line = true <-> In line accepted_inputs.
Proof.
  split.
  - unfold affirmative. rewrite orb_true_iff, !String.eqb_eq.
    destruct line as [|c1 [|c2 [|c3 [|c4 line]]]]; cbn [PyStr.lower];
      intros [E|E]; inversion E; lower_inv; cbn; auto 12.
  - cbn. intros H.
    repeat (destruct H as [<-|H]; [reflexivity|]). destruct H.
Qed.

(** C3, as stated, fails: the input [" yes "] is [yes] once trimmed and
    lowered, yet the run ends without processing any volume. *)
Lemma C3_input_not_trimmed :
  let out := @run nat always_ok plain_terminal (lib_env [])
               (default_args ["/v1"]) (start [" yes "] 0) in
  spec_affirmative " yes " = true
  /\ fst out = Normal tt
  /\ attempted (trace (snd out)) = [].
Proof. vm_compute. repeat split. Qed.

(** C3 (amended): when confirmation is not disabled, for every line of
    input, processing proceeds if and only if the input as typed, with its
    case lowered and nothing trimmed, is [y] or [yes]; any other input,
    the empty one included, ends the run with no error raised and no
    volume processed. *)
Theorem C3_confirmation {Ext : Type} `{VolumeProcessor Ext}
    (env : Env) (a : Args) (ps : list Path)
    (line : string) (rest : list string) (x : Ext) :
  disable_confirmation a = false ->
  resolve env (paths a) (parent_dir a) = Normal ps ->
  ps <> [] ->
  let out := run env a (start (line :: rest) x) in
  let w1 := mkWorld (ocr_note a ++ listing ps
                     ++ [EvInput prompt_text (Some line)]) rest x in
  (affirmative line = true <->
     PyStr.lower line = "y" \/ PyStr.lower line = "yes")
  /\ (affirmative line = true <-> In line accepted_inputs)
  /\ (affirmative line = true ->
        out = process_volumes a (natsorted ps) w1
        /\ attempted (trace (snd out)) <> [])
  /\ (affirmative line = false ->
        out = (Normal tt, w1)
        /\ attempted (trace (snd out)) = []
        /\ ext (snd out) = x).
Proof.
  intros Hd Hr Hne out w1.
  assert (Hout : out = if affirmative line
                       then process_volumes a (natsorted ps) w1
                       else (Normal tt, w1)).
  { subst out w1. rewrite run_unfold, Hr.
    destruct ps as [|p ps]; [congruence|].
    unfold noted, start. cbn [trace stdin ext app].
    now rewrite (confirm_and_process_line a (p :: ps) (ocr_note a) line rest
                   x Hd). }
  split; [|split; [|split]].
  - unfold affirmative. rewrite orb_true_iff, !String.eqb_eq. tauto.
  - apply affirmative_inputs.
  - intros Ha. rewrite Ha in Hout. split; [assumption|].
    rewrite Hout.
    destruct (natsorted ps) as [|q qs] eqn:Hs.
    + apply (proj1 (natsorted_nil_iff ps)) in Hs. contradiction.
    + apply process_volumes_attempts.
  - intros Ha. rewrite Ha in Hout. rewrite Hout. repeat split.
    subst w1. cbn [snd trace]. unfold listing, ocr_note.
    rewrite !attempted_app.
    destruct (disable_ocr a); cbn [attempted app];
      induction (natsorted ps) as [|q qs IH]; cbn; auto.
Qed.

Lemma C3_confirmation_witness :
  let a := default_args ["/v1"] in
  let out := @run nat always_ok plain_terminal
               (lib_env []) a (start ["YES"] 0) in
  let w1 := mkWorld (ocr_note a ++ listing [v1]
                     ++ [EvInput prompt_text (Some "YES")]) [] 0 in
  (affirmative "YES" = true <->
     PyStr.lower "YES" = "y" \/ PyStr.lower "YES" = "yes")
  /\ (affirmative "YES" = true <-> In "YES" accepted_inputs)
  /\ (affirmative "YES" = true ->
        out = @process_volumes nat always_ok a (natsorted [v1]) w1
        /\ attempted (trace (snd out)) <> [])
  /\ (affirmative "YES" = false ->
        out = (Normal tt, w1)
        /\ attempted (trace (snd out)) = []
        /\ ext (snd out) = 0).
Proof.
  apply (@C3_confirmation nat always_ok (lib_env []) (default_args ["/v1"])
           [v1] "YES" [] 0).
  - reflexivity.
  - reflexivity.
  - discriminate.
Defined.

(** ** Worked runs *)

(** Three volumes found by scanning [/lib], the second of which fails with
    an ordinary exception: all three are attempted in natural order, the
    failure is logged, and the summary reads 2/3. *)
Example fault_isolation_end_to_end :
  let vp := fails_on (mkPath "/" ["lib"; "vol2"]) (RuntimeError "boom") in
  let a := mkArgs [] (Some "/lib") "m" false true true false
                  true true false false true false false false false in
  let out := @run nat vp plain_terminal
               (lib_env ["vol10"; "_ocr"; "vol2"; "vol1"]) a
               (start [] 0) in
  fst out = Normal tt
  /\ attempted (trace (snd out))
     = [mkPath "/" ["lib"; "vol1"]; mkPath "/" ["lib"; "vol2"];
        mkPath "/" ["lib"; "vol10"]]
  /\ error_records (trace (snd out))
     = [EvLog ERROR "Error while processing /lib/vol2"
          (Some (RuntimeError "boom"))]
  /\ last (trace (snd out)) (EvPrint "")
     = EvLog INFO "Processed successfully: 2/3" None.
Proof. vm_compute. repeat split. Qed.

(** A declined confirmation: nothing is processed and nothing is raised. *)
Example rejection_end_to_end :
  let out := @run nat always_ok plain_terminal
               (lib_env []) (default_args ["/v1"; "/v2"])
               (start ["no"] 0) in
  fst out = Normal tt
  /\ attempted (trace (snd out)) = []
  /\ prompts (trace (snd out)) = [EvInput prompt_text (Some "no")].
Proof. vm_compute. repeat split. Qed.

(** A path given explicitly and found again by the scan is kept once. *)
Example explicit_and_scanned_once :
  resolve (lib_env ["vol1"; "vol2"]) ["/lib/vol1"] (Some "/lib")
  = Normal [mkPath "/" ["lib"; "vol1"]; mkPath "/" ["lib"; "vol2"]].
Proof. reflexivity. Qed.

(* ================================================================== *)
(** * Further properties of [run] *)

(** ** The loop, whatever the processor does (lines 98-106) *)

Section LoopAny.
Context {Ext : Type} `{VP : VolumeProcessor Ext}.
Variables (ovg : OverlayGenerator) (flag : bool) (total : nat).

(** Everything the loop can do: it only appends log records and calls to
    the trace, leaves the input alone, walks a prefix of the paths in
    order, and either reaches the end with an exact count or stops at the
    first exception outside the class [Exception]. *)
Lemma process_all_any (paths : list Path) :
  forall (i n : nat) (w : World Ext),
  exists evs rest,
    snd (process_all ovg flag total i paths n w)
    = mkWorld (trace w ++ evs) (stdin w)
              (ext_after ovg flag (attempted evs) (ext w))
    /\ paths = attempted evs ++ rest
    /\ Forall (fun c => c = (ovg, flag)) (calls evs)
    /\ prompts evs = [] /\ printed evs = []
    /\ map snd (outcomes evs)
       = volume_outcomes ovg flag (attempted evs) (ext w)
    /\ info_messages evs = progress_msgs total i (attempted evs)
    /\ error_records evs = failure_records (outcomes evs)
    /\ match fst (process_all ovg flag total i paths n w) with
       | Normal n' =>
           rest = [] /\ n' = n + successes evs
           /\ forallb catchable (map snd (outcomes evs)) = true
       | Raised e =>
           err_is_Exception e = false
           /\ last (map snd (outcomes evs)) (Normal tt) = Raised e
       end.
Proof.
  induction paths as [|p l IH]; intros i n w.
  - exists [], []. cbn. rewrite app_nil_r, world_eta, Nat.add_0_r.
    repeat split; constructor.
  - rewrite process_all_cons. cbv zeta.
    destruct (process_dir ovg p flag (ext w)) as [r x] eqn:Hp.
    cbn [fst snd]. destruct r as [u|e]; [|destruct (err_is_Exception e) eqn:He].
    + match goal with
      | |- context [process_all _ _ _ _ l _ ?w1] =>
          destruct (IH (S i) (n + 1) w1)
            as (evs & rest & Hw & Hl & Hc & Hpr & Hpt & Ho & Hi & He & Hres);
          destruct (process_all ovg flag total (S i) l (n + 1) w1)
            as [res w'] eqn:E
      end.
      exists (EvLog INFO (progress_msg i total p) None
              :: EvProcessDir ovg p flag (Normal u) :: evs), rest.
      cbn [fst snd] in *. subst w'. cbn [trace stdin ext] in *.
      cbn [attempted calls prompts printed outcomes info_messages
           error_records filter is_prompt is_error_record map
           ext_after volume_outcomes progress_msgs failure_records app].
      rewrite Hp. cbn [snd]. rewrite <- app_assoc.
      repeat split; try assumption; try (f_equal; assumption);
        try (now constructor).
      destruct res as [n'|e'].
      * destruct Hres as (-> & -> & Hcat). repeat split; try assumption.
        unfold successes. cbn. lia.
      * destruct Hres as (Hne & Hlast). split; [assumption|].
        destruct (map snd (outcomes evs)); cbn in *;
          [discriminate | assumption].
    + match goal with
      | |- context [process_all _ _ _ _ l _ ?w1] =>
          destruct (IH (S i) n w1)
            as (evs & rest & Hw & Hl & Hc & Hpr & Hpt & Ho & Hi & Her & Hres);
          destruct (process_all ovg flag total (S i) l n w1)
            as [res w'] eqn:E
      end.
      exists (EvLog INFO (progress_msg i total p) None
              :: EvProcessDir ovg p flag (Raised e)
              :: EvLog ERROR (failure_msg p) (Some e) :: evs), rest.
      cbn [fst snd] in *. subst w'. cbn [trace stdin ext] in *.
      cbn [attempted calls prompts printed outcomes info_messages
           error_records filter is_prompt is_error_record map
           ext_after volume_outcomes progress_msgs failure_records app].
      rewrite Hp, He. cbn [snd]. rewrite <- !app_assoc.
      repeat split; try assumption; try (f_equal; assumption);
        try (now constructor).
      destruct res as [n'|e'].
      * destruct Hres as (-> & -> & Hcat). repeat split; try assumption.
        cbn. now rewrite He.
      * destruct Hres as (Hne & Hlast). split; [assumption|].
        destruct (map snd (outcomes evs)); cbn in *;
          [discriminate | assumption].
    + exists [EvLog INFO (progress_msg i total p) None;
              EvProcessDir ovg p flag (Raised e)], l.
      cbn. rewrite Hp, He. repeat split; repeat constructor.
Qed.

End LoopAny.

(** ** The runner and the summary, whatever the processor does
       (lines 91-108) *)

Section RunnerAny.
Context {Ext : Type} `{VP : VolumeProcessor Ext}.

(** [process_volumes] in full: the loop's events, then the summary exactly
    when the loop reached its end. *)
Lemma process_volumes_any (a : Args) (paths : list Path) (w : World Ext) :
  exists evs rest,
    snd (process_volumes a paths w)
    = mkWorld
        (trace w ++ evs
         ++ match fst (process_volumes a paths w) with
            | Normal _ =>
                [EvLog INFO
                   (summary_msg (successes evs) (List.length paths)) None]
            | Raised _ => []
            end)
        (stdin w)
        (ext_after (make_ovg a) (as_one_file a) (attempted evs) (ext w))
    /\ paths = attempted evs ++ rest
    /\ Forall (fun c => c = (make_ovg a, as_one_file a)) (calls evs)
    /\ prompts evs = [] /\ printed evs = []
    /\ map snd (outcomes evs)
       = volume_outcomes (make_ovg a) (as_one_file a) (attempted evs) (ext w)
    /\ info_messages evs
       = progress_msgs (List.length paths) 0 (attempted evs)
    /\ error_records evs = failure_records (outcomes evs)
    /\ match fst (process_volumes a paths w) with
       | Normal _ =>
           rest = [] /\ forallb catchable (map snd (outcomes evs)) = true
       | Raised e =>
           err_is_Exception e = false
           /\ last (map snd (outcomes evs)) (Normal tt) = Raised e
       end.
Proof.
  destruct (process_all_any (make_ovg a) (as_one_file a) (List.length paths)
              paths 0 0 w)
    as (evs & rest & Hw & Hl & Hc & Hpr & Hpt & Ho & Hi & He & Hres).
  exists evs, rest.
  unfold process_volumes, bind. cbv zeta. unfold make_ovg in *.
  destruct (process_all _ _ _ 0 paths 0 w) as [[n'|e] w'];
    cbn [fst snd] in *; subst w'.
  - destruct Hres as (Hrest & -> & Hcat).
    unfold logger_info, emit. cbn [fst snd trace stdin ext].
    rewrite <- app_assoc. repeat split; assumption.
  - rewrite app_nil_r. repeat split; try assumption; apply Hres.
Qed.

(** The control flow of [run], case by case: what resolution returns, then
    whether confirmation is disabled, then what the operator types. *)
Lemma run_cases (env : Env) (a : Args) (w : World Ext) :
  run env a w =
  match resolve env (paths a) (parent_dir a) with
  | Raised e => (Raised e, mkWorld (trace w ++ ocr_note a) (stdin w) (ext w))
  | Normal [] =>
      (Normal tt,
       mkWorld (trace w ++ ocr_note a ++ [EvLog ERROR no_paths_msg None])
               (stdin w) (ext w))
  | Normal ps =>
      if disable_confirmation a then
        process_volumes a (natsorted ps)
          (mkWorld (trace w ++ ocr_note a ++ listing ps) (stdin w) (ext w))
      else
        match stdin w with
        | [] =>
            (Raised EOFError,
             mkWorld (trace w ++ ocr_note a ++ listing ps
                      ++ [EvInput prompt_text None]) [] (ext w))
        | line :: rest =>
            let w1 := mkWorld (trace w ++ ocr_note a ++ listing ps
                               ++ [EvInput prompt_text (Some line)])
                              rest (ext w) in
            if affirmative line then process_volumes a (natsorted ps) w1
            else (Normal tt, w1)
        end
  end.
Proof.
  rewrite run_unfold.
  destruct (resolve env (paths a) (parent_dir a)) as [[|p ps]|e];
    try reflexivity.
  unfold noted. destruct (disable_confirmation a) eqn:Hd.
  - unfold confirm_and_process. rewrite Hd. cbn [negb].
    unfold bind at 1. rewrite print_plain. cbn [trace stdin ext].
    unfold bind at 1. rewrite for_each_print. cbn [trace stdin ext].
    unfold listing. rewrite <- !app_assoc. reflexivity.
  - destruct (stdin w) as [|line rest] eqn:Hin.
    + unfold confirm_and_process. rewrite Hd. cbn [negb].
      unfold bind at 1. rewrite print_plain. cbn [trace stdin ext].
      unfold bind at 1. rewrite for_each_print. cbn [trace stdin ext].
      unfold bind at 1. rewrite input_plain. cbn [trace stdin ext].
      unfold listing. rewrite <- !app_assoc. reflexivity.
    + rewrite (confirm_and_process_line a (p :: ps) _ line rest (ext w) Hd).
      cbv zeta. rewrite <- !app_assoc. reflexivity.
Qed.

End RunnerAny.

(** ** One failure among the volumes (lines 101-106) *)

Section OneFailure.
Context {Ext : Type} `{VP : VolumeProcessor Ext}.
Variables (ovg : OverlayGenerator) (flag : bool) (total : nat).

(** The loop over a list in two parts: the second part starts where the
    first one ended, unless an exception left the first. *)
Lemma process_all_app (pre l : list Path) :
  forall (i n : nat) (w : World Ext),
    process_all ovg flag total i (pre ++ l) n w =
    match process_all ovg flag total i pre n w with
    | (Normal n', w') =>
        process_all ovg flag total (i + List.length pre) l n' w'
    | (Raised e, w') => (Raised e, w')
    end.
Proof.
  induction pre as [|p pre IH]; intros i n w.
  - cbn. now rewrite Nat.add_0_r.
  - cbn [app List.length].
    replace (i + S (List.length pre)) with (S i + List.length pre) by lia.
    rewrite !process_all_cons. cbv zeta.
    destruct (fst (process_dir ovg p flag (ext w))) as [u|e];
      [apply IH|].
    destruct (err_is_Exception e); [apply IH | reflexivity].
Qed.

(** A volume whose processing raises an exception of class [Exception],
    anywhere in the list and whatever the volumes after it do. *)
Lemma process_all_isolates_one (pre : list Path) (path : Path)
    (rest : list Path) (e : PyErr) (i n : nat) (w : World Ext) :
  let x := ext_after ovg flag pre (ext w) in
  let x' := snd (process_dir ovg path flag x) in
  let R := process_all ovg flag total i (pre ++ path :: rest) n w in
  forallb catchable (volume_outcomes ovg flag pre (ext w)) = true ->
  fst (process_dir ovg path flag x) = Raised e ->
  err_is_Exception e = true ->
  exists before after,
    snd R
    = mkWorld (trace w ++ before
               ++ [EvProcessDir ovg path flag (Raised e);
                   EvLog ERROR (failure_msg path) (Some e)] ++ after)
              (stdin w)
              (ext_after ovg flag (attempted after) x')
    /\ attempted before = pre
    /\ (forall q rest',
          rest = q :: rest' ->
          exists msg after',
            after = EvLog INFO msg None
                    :: EvProcessDir ovg q flag (fst (process_dir ovg q flag x'))
                    :: after')
    /\ (exists rest', rest = attempted after ++ rest')
    /\ match fst R with
       | Normal n' => attempted after = rest
       | Raised e' => err_is_Exception e' = false
       end
    /\ (forallb catchable (volume_outcomes ovg flag rest x') = true ->
        exists n', fst R = Normal n').
Proof.
  intros x x' R Hc Hp He. subst R.
  destruct (process_all_isolated ovg flag total pre i n w Hc)
    as (evs & Heq & Hatt & _).
  rewrite process_all_app, Heq.
  set (w0 := mkWorld (trace w ++ evs) (stdin w)
               (ext_after ovg flag pre (ext w))).
  assert (Hp0 : fst (process_dir ovg path flag (ext w0)) = Raised e)
    by exact Hp.
  rewrite (process_all_Exception_step ovg flag total _ path rest _ w0 e Hp0 He).
  cbn [trace stdin ext w0]. fold x x'.
  set (w1 := mkWorld _ (stdin w) x').
  set (j := S (i + List.length pre)). set (m := n + successes evs).
  destruct (process_all_any ovg flag total rest j m w1)
    as (after & rest' & Hw & Hl & _ & _ & _ & _ & _ & _ & Hres).
  exists (evs ++ [EvLog INFO (progress_msg (i + List.length pre) total path)
                    None]), after.
  rewrite Hw. subst w1. cbn [trace stdin ext].
  split; [now rewrite <- !app_assoc|].
  split; [rewrite attempted_app, Hatt; cbn; now rewrite app_nil_r|].
  split.
  { intros q rest0 ->.
    destruct (process_all_first ovg flag total q rest0 j m
                (mkWorld ((trace w ++ evs)
                          ++ [EvLog INFO
                                (progress_msg (i + List.length pre) total path)
                                None;
                              EvProcessDir ovg path flag (Raised e);
                              EvLog ERROR (failure_msg path) (Some e)])
                         (stdin w) x'))
      as [evs' Hfirst].
    rewrite Hw in Hfirst. cbn [snd trace ext] in Hfirst.
    rewrite <- !app_assoc in Hfirst. do 3 apply app_inv_head in Hfirst.
    subst after. cbn [app]. eauto. }
  split; [now exists rest'|].
  split.
  - destruct (fst (process_all ovg flag total j rest m _)) as [n'|e'].
    + destruct Hres as (-> & _). now rewrite app_nil_r in Hl.
    + apply Hres.
  - intros Hrest.
    destruct (process_all_isolated ovg flag total rest j m
                (mkWorld ((trace w ++ evs)
                          ++ [EvLog INFO
                                (progress_msg (i + List.length pre) total path)
                                None;
                              EvProcessDir ovg path flag (Raised e);
                              EvLog ERROR (failure_msg path) (Some e)])
                         (stdin w) x') Hrest)
      as (evs2 & Heq2 & _).
    rewrite Heq2. cbn [fst]. eauto.
Qed.

End OneFailure.

(** C1 (amended): on every confirmed working set, when the processing of a
    volume raises an error [e] of the ordinary class [Exception] -- the
    volumes before it having returned or failed in the same way, so that
    the runner reaches it -- the error is logged, right after the call, as
    an ERROR record that carries [e] and names the path; the runner goes on
    to the next volume, whatever that one and the later ones do; [e] does
    not leave the runner (only an error outside [Exception] can), and when
    the later failures are of class [Exception] too the runner returns
    normally with every volume attempted. *)
Theorem C1_Exception_failure_isolated {Ext : Type} `{VolumeProcessor Ext}
    (a : Args) (pre : list Path) (path : Path) (rest : list Path)
    (e : PyErr) (w : World Ext) :
  let ovg := make_ovg a in
  let flag := as_one_file a in
  let x := ext_after ovg flag pre (ext w) in
  let x' := snd (process_dir ovg path flag x) in
  let out := process_volumes a (pre ++ path :: rest) w in
  forallb catchable (volume_outcomes ovg flag pre (ext w)) = true ->
  fst (process_dir ovg path flag x) = Raised e ->
  err_is_Exception e = true ->
  exists before after,
    trace (snd out)
    = trace w ++ before
      ++ [EvProcessDir ovg path flag (Raised e);
          EvLog ERROR (failure_msg path) (Some e)] ++ after
    /\ attempted before = pre
    /\ (forall q rest',
          rest = q :: rest' ->
          exists msg after',
            after = EvLog INFO msg None
                    :: EvProcessDir ovg q flag (fst (process_dir ovg q flag x'))
                    :: after')
    /\ (forall e', fst out = Raised e' -> err_is_Exception e' = false)
    /\ (forallb catchable (volume_outcomes ovg flag rest x') = true ->
        fst out = Normal tt
        /\ attempted (trace (snd out))
           = attempted (trace w) ++ pre ++ path :: rest).
Proof.
  intros ovg flag x x' out Hc Hp He.
  destruct (process_all_isolates_one ovg flag
              (List.length (pre ++ path :: rest)) pre path rest e 0 0 w
              Hc Hp He)
    as (before & after & Hw & Hb & Hnext & _ & Hres & Hall).
  fold x x' in Hw, Hnext, Hall.
  subst out. unfold process_volumes, bind. cbv zeta.
  fold (make_ovg a). fold ovg flag.
  destruct (process_all ovg flag (List.length (pre ++ path :: rest)) 0
              (pre ++ path :: rest) 0 w) as [[n'|e'] w'];
    cbn [fst snd] in *; subst w'.
  - exists before,
      (after ++ [EvLog INFO
                   (summary_msg n' (List.length (pre ++ path :: rest))) None]).
    unfold logger_info, emit. cbn [fst snd trace stdin ext].
    split; [now rewrite <- !app_assoc|]. split; [assumption|]. split.
    { intros q rest0 Hq. destruct (Hnext q rest0 Hq) as (msg & after' & ->).
      cbn [app]. eauto. }
    split; [discriminate|]. intros _. split; [reflexivity|].
    rewrite !attempted_app, Hb, Hres. cbn. now rewrite app_nil_r.
  - exists before, after. cbn [trace].
    split; [reflexivity|]. split; [assumption|]. split; [assumption|].
    split; [now intros e0 [= <-]|].
    intros Hrest. destruct (Hall Hrest) as [n' Hn]. discriminate.
Qed.

Lemma C1_Exception_failure_isolated_witness :
  let vp := scripted (fun p => if PurePath.eqb p v1
                               then Raised (RuntimeError "boom")
                               else if PurePath.eqb p v2
                                    then Raised KeyboardInterrupt
                                    else Normal tt) in
  let a := default_args [] in
  let out := @process_volumes nat vp a ([] ++ v1 :: [v2]) (start [] 0) in
  exists before after,
    trace (snd out)
    = [] ++ before
      ++ [EvProcessDir (make_ovg a) v1 true (Raised (RuntimeError "boom"));
          EvLog ERROR (failure_msg v1) (Some (RuntimeError "boom"))] ++ after
    /\ attempted before = []
    /\ (forall q rest',
          [v2] = q :: rest' ->
          exists msg after',
            after = EvLog INFO msg None
                    :: EvProcessDir (make_ovg a) q true
                         (fst (@process_dir nat vp (make_ovg a) q true 1))
                    :: after')
    /\ (forall e', fst out = Raised e' -> err_is_Exception e' = false)
    /\ (forallb catchable
          (@volume_outcomes nat vp (make_ovg a) true [v2] 1) = true ->
        fst out = Normal tt
        /\ attempted (trace (snd out)) = attempted [] ++ [] ++ v1 :: [v2]).
Proof.
  apply (@C1_Exception_failure_isolated nat
           (scripted (fun p => if PurePath.eqb p v1
                               then Raised (RuntimeError "boom")
                               else if PurePath.eqb p v2
                                    then Raised KeyboardInterrupt
                                    else Normal tt))
           (default_args []) [] v1 [v2] (RuntimeError "boom") (start [] 0));
    reflexivity.
Defined.

(** ** A whole run, whatever the inputs (lines 66-108) *)

Lemma calls_app (t1 t2 : list Event) : calls (t1 ++ t2) = calls t1 ++ calls t2.
Proof.
  induction t1 as [|ev t1 IH]; [reflexivity|].
  destruct ev; cbn; rewrite IH; reflexivity.
Qed.

Lemma printed_app (t1 t2 : list Event) :
  printed (t1 ++ t2) = printed t1 ++ printed t2.
Proof.
  induction t1 as [|ev t1 IH]; [reflexivity|].
  destruct ev; cbn; rewrite IH; reflexivity.
Qed.

Lemma info_messages_app (t1 t2 : list Event) :
  info_messages (t1 ++ t2) = info_messages t1 ++ info_messages t2.
Proof.
  induction t1 as [|ev t1 IH]; [reflexivity|].
  destruct ev as [[] ? ?| | |]; cbn; rewrite IH; reflexivity.
Qed.

Lemma prompts_app (t1 t2 : list Event) :
  prompts (t1 ++ t2) = prompts t1 ++ prompts t2.
Proof. apply filter_app. Qed.

Lemma error_records_app (t1 t2 : list Event) :
  error_records (t1 ++ t2) = error_records t1 ++ error_records t2.
Proof. apply filter_app. Qed.

(** The listing holds prints only. *)
Lemma listing_reads (ps : list Path) :
  attempted (listing ps) = [] /\ calls (listing ps) = []
  /\ outcomes (listing ps) = [] /\ prompts (listing ps) = []
  /\ info_messages (listing ps) = [] /\ error_records (listing ps) = []
  /\ printed (listing ps)
     = (PyStr.nl ++ "Paths to process:" ++ PyStr.nl)%string
       :: map PurePath.str (natsorted ps).
Proof.
  unfold listing. cbn [attempted calls outcomes prompts info_messages
                       error_records printed filter is_prompt is_error_record].
  induction (natsorted ps) as [|q qs IH]; cbn; [repeat split|].
  destruct IH as (H1 & H2 & H3 & H4 & H5 & H6 & H7).
  repeat split; try assumption. now injection H7 as ->.
Qed.

(** The note about OCR is at most one INFO record. *)
Lemma ocr_note_reads (a : Args) :
  attempted (ocr_note a) = [] /\ calls (ocr_note a) = []
  /\ outcomes (ocr_note a) = [] /\ prompts (ocr_note a) = []
  /\ printed (ocr_note a) = [] /\ error_records (ocr_note a) = [].
Proof. unfold ocr_note. destruct (disable_ocr a); repeat split. Qed.

Lemma attempted_listing ps : attempted (listing ps) = [].
Proof. apply listing_reads. Qed.
Lemma calls_listing ps : calls (listing ps) = [].
Proof. apply listing_reads. Qed.
Lemma outcomes_listing ps : outcomes (listing ps) = [].
Proof. apply listing_reads. Qed.
Lemma prompts_listing ps : prompts (listing ps) = [].
Proof. apply listing_reads. Qed.
Lemma info_messages_listing ps : info_messages (listing ps) = [].
Proof. apply listing_reads. Qed.
Lemma error_records_listing ps : error_records (listing ps) = [].
Proof. apply listing_reads. Qed.
Lemma printed_listing ps :
  printed (listing ps)
  = (PyStr.nl ++ "Paths to process:" ++ PyStr.nl)%string
    :: map PurePath.str (natsorted ps).
Proof. apply listing_reads. Qed.

Lemma attempted_ocr_note a : attempted (ocr_note a) = [].
Proof. apply ocr_note_reads. Qed.
Lemma calls_ocr_note a : calls (ocr_note a) = [].
Proof. apply ocr_note_reads. Qed.
Lemma outcomes_ocr_note a : outcomes (ocr_note a) = [].
Proof. apply ocr_note_reads. Qed.
Lemma prompts_ocr_note a : prompts (ocr_note a) = [].
Proof. apply ocr_note_reads. Qed.
Lemma printed_ocr_note a : printed (ocr_note a) = [].
Proof. apply ocr_note_reads. Qed.
Lemma error_records_ocr_note a : error_records (ocr_note a) = [].
Proof. apply ocr_note_reads. Qed.

Create Rewrite HintDb reads.
#[local] Hint Rewrite attempted_app calls_app outcomes_app prompts_app
  printed_app info_messages_app error_records_app
  attempted_listing calls_listing outcomes_listing prompts_listing
  info_messages_listing error_records_listing printed_listing
  attempted_ocr_note calls_ocr_note outcomes_ocr_note prompts_ocr_note
  printed_ocr_note error_records_ocr_note : reads.

Ltac read_pre :=
  autorewrite with reads;
  cbn [app attempted calls outcomes prompts printed info_messages
       error_records filter is_prompt is_error_record];
  rewrite ?app_nil_r.

(** ** The end of the input at the prompt (lines 86-87) *)

(** At the prompt with no input left, [input] raises [EOFError]; it leaves
    [run] uncaught, after the listing and the prompt, and no volume is
    attempted and no ERROR record written. *)
Theorem run_eof_at_prompt {Ext : Type} `{VolumeProcessor Ext}
    (env : Env) (a : Args) (x : Ext) :
  asks env a = true ->
  let out := run env a (start [] x) in
  fst out = Raised EOFError
  /\ attempted (trace (snd out)) = []
  /\ error_records (trace (snd out)) = []
  /\ prompts (trace (snd out)) = [EvInput prompt_text None]
  /\ ext (snd out) = x.
Proof.
  intros Ha. cbv zeta. unfold asks in Ha. rewrite run_cases.
  destruct (resolve env (paths a) (parent_dir a)) as [[|p ps]|e];
    rewrite ?andb_false_r in Ha; try discriminate.
  rewrite andb_true_r in Ha. apply negb_true_iff in Ha. rewrite Ha.
  cbn [start stdin trace ext fst snd app].
  repeat split; read_pre; reflexivity.
Qed.

Lemma run_eof_at_prompt_witness :
  let out := @run nat always_ok plain_terminal
               (lib_env []) (default_args ["/v1"])
               (start [] 0) in
  fst out = Raised EOFError
  /\ attempted (trace (snd out)) = []
  /\ error_records (trace (snd out)) = []
  /\ prompts (trace (snd out)) = [EvInput prompt_text None]
  /\ ext (snd out) = 0.
Proof.
  apply (@run_eof_at_prompt nat always_ok (lib_env [])
           (default_args ["/v1"]) 0).
  reflexivity.
Defined.

(** ** More on resolution (lines 69-74) *)

(** The scan keeps the list it is given. *)
Lemma scan_keeps (env : Env) (children paths : list Path) (q : Path) :
  In q paths -> In q (scan env children paths).
Proof.
  intros Hq. destruct (scan_spec env children paths) as (added & -> & _).
  apply in_or_app. now left.
Qed.

(** The scan misses nothing: a child that is a directory and whose stem is
    not [_ocr] is in the list afterwards. *)
Lemma scan_complete (env : Env) (children : list Path) :
  forall paths c,
    In c children -> is_dir env c = true -> stem c <> "_ocr" ->
    In c (scan env children paths).
Proof.
  induction children as [|p rest IH]; intros paths c Hin Hd Hs; [destruct Hin|].
  cbn [scan]. destruct Hin as [->|Hin].
  - apply String.eqb_neq in Hs. rewrite Hd, Hs. cbn [negb andb].
    destruct (contains paths c) eqn:Hc; cbn [negb].
    + apply scan_keeps. now apply contains_In.
    + apply scan_keeps, in_or_app. right. now left.
  - destruct (is_dir env p && negb (stem p =? "_ocr")%string
              && negb (contains paths p)); now apply IH.
Qed.

Lemma contains_snoc (paths : list Path) (p q : Path) :
  p <> q -> contains (paths ++ [p]) q = contains paths q.
Proof.
  intros Hne. induction paths as [|r paths IH]; cbn.
  - unfold PurePath.eqb. destruct (Path_eq_dec p q); [contradiction|].
    reflexivity.
  - now rewrite IH.
Qed.

(** When the children are pairwise distinct, the scan appends exactly the
    eligible ones, in the order of the listing. *)
Lemma scan_filter (env : Env) (children : list Path) :
  forall paths,
    NoDup children ->
    scan env children paths = paths ++ filter (eligible env paths) children.
Proof.
  induction children as [|p rest IH]; intros paths Hnd.
  - cbn. now rewrite app_nil_r.
  - inversion Hnd as [|? ? Hnin Hnd']; subst. cbn [scan filter].
    unfold eligible at 1.
    destruct (is_dir env p && negb (stem p =? "_ocr")%string
              && negb (contains paths p)).
    + rewrite (IH (paths ++ [p]) Hnd'), <- app_assoc. cbn [app].
      do 2 f_equal. apply filter_ext_in. intros q Hq.
      unfold eligible. rewrite contains_snoc; [reflexivity|].
      intros ->. contradiction.
    + now apply IH.
Qed.

Lemma make_child_relpath_inj (d : Path) (n m : string) :
  make_child_relpath d n = make_child_relpath d m -> n = m.
Proof.
  unfold make_child_relpath. intros E. injection E as E.
  now apply app_inj_tail in E.
Qed.

(** The scan finds every volume (completeness): after a resolution with a
    parent directory, every entry of that directory that is a directory and
    whose stem is not [_ocr] is in the working set. *)
Theorem resolve_includes_every_volume (env : Env) (ps : list string)
    (d : string) (dir : Path) (names : list string) (l : list Path)
    (n : string) :
  normalize env d = Normal dir ->
  listdir env dir = Normal names ->
  resolve env ps (Some d) = Normal l ->
  In n names ->
  is_dir env (make_child_relpath dir n) = true ->
  stem (make_child_relpath dir n) <> "_ocr" ->
  In (make_child_relpath dir n) (natsorted l).
Proof.
  unfold resolve, Pathlib.iterdir. intros Hd Hl Hr Hn Hdir Hs.
  destruct (normalize_all env ps) as [explicit|e]; [|discriminate].
  rewrite Hd, Hl in Hr. injection Hr as <-.
  apply (Permutation_in _ (Permutation_sym (natsorted_Permutation _))).
  apply scan_complete; try assumption. now apply in_map.
Qed.

Lemma resolve_includes_every_volume_witness :
  In (make_child_relpath (mkPath "/" ["lib"]) "vol2")
     (natsorted [mkPath "/" ["lib"; "vol1"]; mkPath "/" ["lib"; "vol2"]]).
Proof.
  apply (resolve_includes_every_volume (lib_env ["vol1"; "_ocr"; "vol2"])
           [] "/lib" (mkPath "/" ["lib"]) ["vol1"; "_ocr"; "vol2"]
           [mkPath "/" ["lib"; "vol1"]; mkPath "/" ["lib"; "vol2"]] "vol2");
    try reflexivity.
  - right. right. now left.
  - discriminate.
Defined.

(** Resolution in closed form.  When the entry names of the parent
    directory are pairwise distinct, the resolved list is the explicit
    paths, as given, followed by the eligible entries (directories, stem
    other than [_ocr], not among the explicit paths) in the order of the
    directory listing. *)
Theorem resolve_closed_form (env : Env) (ps : list string)
    (d : string) (explicit : list Path) (dir : Path) (names : list string) :
  normalize_all env ps = Normal explicit ->
  normalize env d = Normal dir ->
  listdir env dir = Normal names ->
  NoDup names ->
  resolve env ps (Some d)
  = Normal (explicit
            ++ filter (eligible env explicit)
                 (map (make_child_relpath dir) names)).
Proof.
  unfold resolve, Pathlib.iterdir. intros -> -> -> Hnd.
  f_equal. apply scan_filter.
  apply Finite.Injective_map_NoDup; [|assumption].
  intros n m. apply make_child_relpath_inj.
Qed.

Lemma resolve_closed_form_witness :
  resolve (lib_env ["vol2"; "_ocr.bak"; "vol1"]) ["/lib/vol1"; "/x"]
          (Some "/lib")
  = Normal ([mkPath "/" ["lib"; "vol1"]; mkPath "/" ["x"]]
            ++ filter (eligible (lib_env ["vol2"; "_ocr.bak"; "vol1"])
                         [mkPath "/" ["lib"; "vol1"]; mkPath "/" ["x"]])
                 (map (make_child_relpath (mkPath "/" ["lib"]))
                      ["vol2"; "_ocr.bak"; "vol1"])).
Proof.
  apply (resolve_closed_form (lib_env ["vol2"; "_ocr.bak"; "vol1"])
           ["/lib/vol1"; "/x"] "/lib"
           [mkPath "/" ["lib"; "vol1"]; mkPath "/" ["x"]]
           (mkPath "/" ["lib"]) ["vol2"; "_ocr.bak"; "vol1"]);
    try reflexivity.
  repeat constructor; cbn; intuition discriminate.
Defined.

(** How often a path is in the working set.  A path given explicitly is
    there as many times as it was given: the scan never adds a copy of it.
    Any other path is there at most once. *)
Theorem resolve_multiplicity (env : Env) (ps : list string)
    (parent : option string) (explicit l : list Path) (p : Path) :
  normalize_all env ps = Normal explicit ->
  resolve env ps parent = Normal l ->
  (In p explicit ->
   count_occ Path_eq_dec (natsorted l) p = count_occ Path_eq_dec explicit p)
  /\ (~ In p explicit -> count_occ Path_eq_dec (natsorted l) p <= 1).
Proof.
  intros Hn Hr.
  destruct (resolve_spec env ps parent explicit l Hn Hr)
    as (added & -> & Hall & Hnd & _).
  rewrite (proj1 (Permutation_count_occ Path_eq_dec _ _)
             (natsorted_Permutation (explicit ++ added)) p), count_occ_app.
  rewrite Forall_forall in Hall. split.
  - intros Hin.
    assert (Hz : count_occ Path_eq_dec added p = 0).
    { apply count_occ_not_In. intros Hp. now destruct (Hall p Hp). }
    lia.
  - intros Hnin.
    assert (Hz : count_occ Path_eq_dec explicit p = 0)
      by now apply count_occ_not_In.
    pose proof (proj1 (NoDup_count_occ Path_eq_dec added) Hnd p). lia.
Qed.

Lemma resolve_multiplicity_witness :
  (In (mkPath "/" ["lib"; "vol1"]) [mkPath "/" ["lib"; "vol1"]] ->
   count_occ Path_eq_dec
     (natsorted [mkPath "/" ["lib"; "vol1"]; mkPath "/" ["lib"; "vol2"]])
     (mkPath "/" ["lib"; "vol1"])
   = count_occ Path_eq_dec [mkPath "/" ["lib"; "vol1"]]
       (mkPath "/" ["lib"; "vol1"]))
  /\ (~ In (mkPath "/" ["lib"; "vol1"]) [mkPath "/" ["lib"; "vol1"]] ->
      count_occ Path_eq_dec
        (natsorted [mkPath "/" ["lib"; "vol1"]; mkPath "/" ["lib"; "vol2"]])
        (mkPath "/" ["lib"; "vol1"]) <= 1).
Proof.
  apply (resolve_multiplicity (lib_env ["vol1"; "vol2"]) ["/lib/vol1"]
           (Some "/lib") [mkPath "/" ["lib"; "vol1"]]
           [mkPath "/" ["lib"; "vol1"]; mkPath "/" ["lib"; "vol2"]]
           (mkPath "/" ["lib"; "vol1"])); reflexivity.
Defined.

(** *** Normalised paths *)

Lemma absolute_is_absolute (env : Env) (q : Path) :
  is_absolute (PurePath.parse (getcwd env)) = true ->
  is_absolute (Pathlib.absolute env q) = true.
Proof.
  intros Hcwd. unfold Pathlib.absolute.
  destruct (is_absolute q) eqn:Hq; [assumption | exact Hcwd].
Qed.

Lemma normalize_is_absolute (env : Env) (s : string) (q : Path) :
  is_absolute (PurePath.parse (getcwd env)) = true ->
  normalize env s = Normal q -> is_absolute q = true.
Proof.
  intros Hcwd. unfold normalize.
  destruct (Pathlib.expanduser env (PurePath.parse s)); [|discriminate].
  intros E. injection E as <-. now apply absolute_is_absolute.
Qed.

Lemma normalize_all_absolute (env : Env) (ps : list string) :
  is_absolute (PurePath.parse (getcwd env)) = true ->
  forall qs, normalize_all env ps = Normal qs ->
             Forall (fun q => is_absolute q = true) qs.
Proof.
  intros Hcwd. induction ps as [|p ps IH]; intros qs E; cbn in E.
  - injection E as <-. constructor.
  - destruct (normalize env p) as [q|] eqn:Hq; [|discriminate].
    destruct (normalize_all env ps) as [qs'|]; [|discriminate].
    injection E as <-. constructor; [|now apply IH].
    now apply (normalize_is_absolute env p).
Qed.

(** Every path of the working set is absolute, provided the working
    directory of the process is (as [os.getcwd] returns it): explicit
    paths are made absolute, and the children of an absolute parent are
    absolute. *)
Theorem working_set_is_absolute (env : Env) (ps : list string)
    (parent : option string) (l : list Path) :
  is_absolute (PurePath.parse (getcwd env)) = true ->
  resolve env ps parent = Normal l ->
  Forall (fun p => is_absolute p = true) (natsorted l).
Proof.
  intros Hcwd Hr.
  apply (Permutation_Forall (Permutation_sym (natsorted_Permutation l))).
  unfold resolve, Pathlib.iterdir in Hr.
  destruct (normalize_all env ps) as [explicit|] eqn:Hn; [|discriminate].
  pose proof (normalize_all_absolute env ps Hcwd explicit Hn) as Hex.
  destruct parent as [d|]; [|now injection Hr as <-].
  destruct (normalize env d) as [dir|] eqn:Hd; [|discriminate].
  destruct (listdir env dir) as [names|]; [|discriminate].
  injection Hr as <-.
  destruct (scan_spec env (map (make_child_relpath dir) names) explicit)
    as (added & -> & Hall & _).
  apply Forall_app. split; [assumption|].
  eapply Forall_impl; [|exact Hall]. cbn. intros p (_ & _ & Hin & _).
  apply in_map_iff in Hin as (n & <- & _).
  apply (normalize_is_absolute env d dir Hcwd Hd).
Qed.

Lemma working_set_is_absolute_witness :
  Forall (fun p => is_absolute p = true)
         (natsorted [mkPath "/" ["w"; "rel"]; mkPath "/" ["home"; "u"; "m"];
                     mkPath "/" ["lib"; "vol1"]]).
Proof.
  apply (working_set_is_absolute (lib_env ["vol1"]) ["rel"; "~/m"]
           (Some "/lib")
           [mkPath "/" ["w"; "rel"]; mkPath "/" ["home"; "u"; "m"];
            mkPath "/" ["lib"; "vol1"]]); reflexivity.
Defined.

Lemma split_no_sep (sep : ascii) (s : string) :
  forallb (fun c => negb (Ascii.eqb c sep)) (list_ascii_of_string s) = true ->
  PyStr.split sep s = [s].
Proof.
  induction s as [|c s IH]; [reflexivity|].
  cbn. intros Hs. apply andb_true_iff in Hs as [Hc Hs].
  apply negb_true_iff in Hc. now rewrite Hc, (IH Hs).
Qed.

Lemma splitroot_relative (s : string) :
  PyStr.starts_with_char "/" s = false -> splitroot s = (EmptyString, s).
Proof.
  destruct s as [|c s]; [reflexivity|]. cbn.
  destruct c as [[] [] [] [] [] [] [] []]; try discriminate; reflexivity.
Qed.

(** A bare name parses to the one-component relative path. *)
Lemma parse_simple_name (n : string) :
  simple_name n = true -> PurePath.parse n = mkPath "" [n].
Proof.
  unfold simple_name. intros Hs.
  apply andb_true_iff in Hs as [Hs Hslash].
  apply andb_true_iff in Hs as [Hs Htilde].
  apply andb_true_iff in Hs as [Hne Hdot].
  unfold PurePath.parse. rewrite splitroot_relative.
  - rewrite (split_no_sep _ _ Hslash). cbn. now rewrite Hne, Hdot.
  - destruct n as [|c n]; [reflexivity|]. cbn in Hslash |- *.
    apply andb_true_iff in Hslash as [Hc _]. now apply negb_true_iff in Hc.
Qed.

(** A bare name is normalised to the child of that name of the working
    directory. *)
Lemma normalize_simple_name (env : Env) (n : string) :
  simple_name n = true ->
  normalize env n
  = Normal (make_child_relpath (PurePath.parse (getcwd env)) n).
Proof.
  intros Hs. unfold normalize. rewrite (parse_simple_name n Hs).
  unfold simple_name in Hs.
  apply andb_true_iff in Hs as [Hs _]. apply andb_true_iff in Hs as [_ Ht].
  apply negb_true_iff in Ht.
  unfold Pathlib.expanduser. cbn [root tail]. rewrite Ht. reflexivity.
Qed.

Lemma normalize_dot (env : Env) :
  normalize env "." = Normal (PurePath.parse (getcwd env)).
Proof.
  unfold normalize, Pathlib.expanduser, Pathlib.absolute. cbn.
  rewrite app_nil_r. now destruct (PurePath.parse (getcwd env)).
Qed.

(** A volume given by its bare name and found again by scanning the
    working directory ([parent_dir='.']) is one and the same path:
    normalisation turns the name into the child the scan builds, and the
    working set holds it exactly once. *)
Theorem relative_path_and_scan_once (env : Env) (n : string)
    (l : list Path) :
  simple_name n = true ->
  resolve env [n] (Some ".") = Normal l ->
  let cwd := PurePath.parse (getcwd env) in
  normalize env n = Normal (make_child_relpath cwd n)
  /\ normalize env "." = Normal cwd
  /\ count_occ Path_eq_dec (natsorted l) (make_child_relpath cwd n) = 1.
Proof.
  intros Hs Hr cwd. split; [now apply normalize_simple_name|].
  split; [apply normalize_dot|].
  assert (Hn : normalize_all env [n] = Normal [make_child_relpath cwd n])
    by (cbn; now rewrite (normalize_simple_name env n Hs)).
  destruct (resolve_multiplicity env [n] (Some ".")
              [make_child_relpath cwd n] l (make_child_relpath cwd n) Hn Hr)
    as [Hc _].
  rewrite Hc by now left.
  now rewrite count_occ_cons_eq.
Qed.

Lemma relative_path_and_scan_once_witness :
  let env := mkEnv "/lib" (fun _ => "/home/u")
               (fun p => if PurePath.eqb p (mkPath "/" ["lib"])
                         then Normal ["vol1"; "vol2"]
                         else Raised (FileNotFoundError (PurePath.str p)))
               (fun _ => true) in
  let cwd := PurePath.parse (getcwd env) in
  normalize env "vol1" = Normal (make_child_relpath cwd "vol1")
  /\ normalize env "." = Normal cwd
  /\ count_occ Path_eq_dec
       (natsorted [mkPath "/" ["lib"; "vol1"]; mkPath "/" ["lib"; "vol2"]])
       (make_child_relpath cwd "vol1") = 1.
Proof.
  apply (relative_path_and_scan_once
           (mkEnv "/lib" (fun _ => "/home/u")
              (fun p => if PurePath.eqb p (mkPath "/" ["lib"])
                        then Normal ["vol1"; "vol2"]
                        else Raised (FileNotFoundError (PurePath.str p)))
              (fun _ => true))
           "vol1"
           [mkPath "/" ["lib"; "vol1"]; mkPath "/" ["lib"; "vol2"]]);
    reflexivity.
Defined.

Lemma normalize_env_ext (env env' : Env) (s : string) :
  getcwd env = getcwd env' ->
  (forall t, os_expanduser env t = os_expanduser env' t) ->
  normalize env s = normalize env' s.
Proof.
  intros Hcwd Hhome. unfold normalize, Pathlib.expanduser, Pathlib.absolute.
  rewrite Hcwd.
  destruct (root (PurePath.parse s)); [|reflexivity].
  destruct (tail (PurePath.parse s)) as [|first rest]; [reflexivity|].
  now rewrite Hhome.
Qed.

(** Explicit paths are taken as given: without a parent directory,
    resolution never looks at the filesystem.  Two environments with the
    same working directory and the same home directories resolve the
    explicit paths alike, whatever exists in them, and no path is dropped
    for not being a directory or for being named [_ocr]. *)
Theorem explicit_paths_unchecked (env env' : Env) (ps : list string) :
  getcwd env = getcwd env' ->
  (forall t, os_expanduser env t = os_expanduser env' t) ->
  resolve env ps None = resolve env' ps None
  /\ forall l, resolve env ps None = Normal l ->
               List.length l = List.length ps.
Proof.
  intros Hcwd Hhome. unfold resolve.
  assert (Hall : normalize_all env ps = normalize_all env' ps).
  { induction ps as [|p ps IH]; [reflexivity|]. cbn.
    now rewrite (normalize_env_ext env env' p Hcwd Hhome), IH. }
  rewrite Hall. split; [reflexivity|]. clear Hall.
  induction ps as [|p ps IH]; intros l E; cbn in E.
  - now injection E as <-.
  - destruct (normalize env' p); [|discriminate].
    destruct (normalize_all env' ps) as [qs|]; [|discriminate].
    injection E as <-. cbn. f_equal. now apply IH.
Qed.

Lemma explicit_paths_unchecked_witness :
  let env' := mkEnv "/w" (fun _ => "/home/u")
                (fun p => Raised (FileNotFoundError (PurePath.str p)))
                (fun _ => false) in
  resolve (lib_env ["vol1"]) ["/gone/_ocr"; "rel"] None
  = resolve env' ["/gone/_ocr"; "rel"] None
  /\ forall l, resolve (lib_env ["vol1"]) ["/gone/_ocr"; "rel"] None
               = Normal l ->
               List.length l = List.length ["/gone/_ocr"; "rel"].
Proof.
  apply (explicit_paths_unchecked (lib_env ["vol1"])
           (mkEnv "/w" (fun _ => "/home/u")
              (fun p => Raised (FileNotFoundError (PurePath.str p)))
              (fun _ => false))
           ["/gone/_ocr"; "rel"]); reflexivity.
Defined.

(** ** The natural order is an order *)









Section KeyOrder.
Context {A : Type} (key : A -> list Chunk).
Hypothesis key_shaped : forall x, shape false (key x) = true.






End KeyOrder.

(** ** Numbers inside names *)











(** ** A run on any terminal (lines 66-108) *)

Lemma map_EvPrint_reads (l : list string) :
  attempted (map EvPrint l) = [] /\ calls (map EvPrint l) = []
  /\ outcomes (map EvPrint l) = [] /\ prompts (map EvPrint l) = []
  /\ info_messages (map EvPrint l) = []
  /\ error_records (map EvPrint l) = []
  /\ printed (map EvPrint l) = l.
Proof.
  induction l as [|s l (H1 & H2 & H3 & H4 & H5 & H6 & H7)];
    [repeat split|].
  cbn. repeat split; try assumption. now f_equal.
Qed.

Section RunOn.
Context {Ext : Type} `{VP : VolumeProcessor Ext} {T : Terminal}.

(** The loop of prints stops at the first one that raises. *)
Lemma for_each_print_on (f : Path -> string) (l : list Path) :
  forall w : World Ext,
    for_each l (fun p => print (f p)) w =
    (match print_failure (map f l) with
     | Some e => Raised e
     | None => Normal tt
     end,
     mkWorld (trace w ++ map EvPrint (printed_prefix (map f l)))
             (stdin w) (ext w)).
Proof.
  induction l as [|p l IH]; intros w; cbn [for_each map].
  - unfold ret. cbn. now rewrite app_nil_r, world_eta.
  - unfold bind, print at 1. cbn [print_failure printed_prefix].
    destruct (print_error (f p)) as [e|].
    + cbn. now rewrite app_nil_r, world_eta.
    + unfold emit. rewrite IH. cbn [trace stdin ext map].
      now rewrite <- app_assoc.
Qed.

(** The control flow of [run] on any terminal. *)
Lemma run_cases_on (env : Env) (a : Args) (w : World Ext) :
  run env a w =
  match resolve env (paths a) (parent_dir a) with
  | Raised e => (Raised e, mkWorld (trace w ++ ocr_note a) (stdin w) (ext w))
  | Normal [] =>
      (Normal tt,
       mkWorld (trace w ++ ocr_note a ++ [EvLog ERROR no_paths_msg None])
               (stdin w) (ext w))
  | Normal ps =>
      let texts :=
        (PyStr.nl ++ "Paths to process:" ++ PyStr.nl)%string
        :: map PurePath.str (natsorted ps) in
      let t1 := trace w ++ ocr_note a ++ map EvPrint (printed_prefix texts) in
      match print_failure texts with
      | Some e => (Raised e, mkWorld t1 (stdin w) (ext w))
      | None =>
          if disable_confirmation a then
            process_volumes a (natsorted ps) (mkWorld t1 (stdin w) (ext w))
          else
            match input_error (stdin w) with
            | Some (e, pending) =>
                (Raised e,
                 mkWorld (t1 ++ [EvInput prompt_text None]) pending (ext w))
            | None =>
                match stdin w with
                | [] =>
                    (Raised EOFError,
                     mkWorld (t1 ++ [EvInput prompt_text None]) [] (ext w))
                | line :: rest =>
                    let w2 :=
                      mkWorld (t1 ++ [EvInput prompt_text (Some line)])
                              rest (ext w) in
                    if affirmative line
                    then process_volumes a (natsorted ps) w2
                    else (Normal tt, w2)
                end
            end
      end
  end.
Proof.
  unfold run. unfold bind at 1.
  assert (Hnote : (if disable_ocr a
                   then logger_info "Running with OCR disabled"
                   else ret tt) w
                  = (Normal tt,
                     mkWorld (trace w ++ ocr_note a) (stdin w) (ext w))).
  { unfold ocr_note. destruct (disable_ocr a); cbn.
    - reflexivity.
    - unfold ret. now rewrite app_nil_r, world_eta. }
  rewrite Hnote. unfold bind at 1, lift.
  destruct (resolve env (paths a) (parent_dir a)) as [[|p ps]|e];
    [ | |reflexivity].
  - cbn. unfold logger_error, emit. cbn. now rewrite <- app_assoc.
  - cbn [List.length Nat.eqb]. unfold confirm_and_process. cbv zeta.
    set (W := natsorted (p :: ps)).
    unfold bind at 1, print at 1. cbn [print_failure printed_prefix].
    cbn [trace stdin ext].
    destruct (print_error (PyStr.nl ++ "Paths to process:" ++ PyStr.nl))
      as [e|]; cbn [map].
    + now rewrite app_nil_r.
    + unfold emit. cbn [trace stdin ext].
      unfold bind at 1. rewrite for_each_print_on. cbn [trace stdin ext].
      rewrite <- !app_assoc. cbn [app].
      destruct (print_failure (map PurePath.str W)) as [e|];
        [reflexivity|].
      destruct (disable_confirmation a); cbn [negb]; [reflexivity|].
      unfold bind at 1, input. cbn [trace stdin ext].
      destruct (input_error (stdin w)) as [[e pending]|];
        [now rewrite <- !app_assoc|].
      destruct (stdin w) as [|line rest];
        [now rewrite <- !app_assoc|].
      rewrite <- !app_assoc. cbn [app].
      destruct (affirmative line); reflexivity.
Qed.

End RunOn.

Lemma attempted_prints (l : list string) : attempted (map EvPrint l) = [].
Proof. apply map_EvPrint_reads. Qed.
Lemma prompts_prints (l : list string) : prompts (map EvPrint l) = [].
Proof. apply map_EvPrint_reads. Qed.
Lemma printed_prints (l : list string) : printed (map EvPrint l) = l.
Proof. apply map_EvPrint_reads. Qed.

#[local] Hint Rewrite attempted_prints prompts_prints printed_prints : reads.

Section RunOnTrace.
Context {Ext : Type} `{VP : VolumeProcessor Ext} {T : Terminal}.

(** The runner leaves the input alone, prints nothing, shows no prompt,
    and walks an initial part of its list, all of it when it returns. *)
Lemma process_volumes_frame (a : Args) (W : list Path) (w : World Ext) :
  let out := process_volumes a W w in
  exists evs rest,
    trace (snd out) = trace w ++ evs
    /\ stdin (snd out) = stdin w
    /\ W = attempted evs ++ rest
    /\ printed evs = [] /\ prompts evs = []
    /\ (forall u, fst out = Normal u -> rest = []).
Proof.
  cbv zeta.
  destruct (process_volumes_any a W w)
    as (evs & rest & Hw & Hl & _ & Hpr & Hpt & _ & _ & _ & Hres).
  rewrite Hw. cbn [trace stdin].
  destruct (fst (process_volumes a W w)) as [u|e].
  - exists (evs ++ [EvLog INFO (summary_msg (successes evs) (List.length W))
                      None]), rest.
    autorewrite with reads. cbn. rewrite !app_nil_r.
    repeat split; try assumption. intros _ _. apply Hres.
  - exists evs, rest. rewrite app_nil_r.
    repeat split; try assumption. discriminate.
Qed.

(** A run from a fresh world on any terminal, read off its final trace. *)
Lemma run_on_trace (env : Env) (a : Args) (lines : list string) (x : Ext) :
  let out := run env a (start lines x) in
  let Tr := trace (snd out) in
  exists rest,
    working_set env a = attempted Tr ++ rest
    /\ (forall u, fst out = Normal u -> attempted Tr <> [] -> rest = [])
    /\ printed Tr = printed_prefix (listing_text env a)
    /\ prompts Tr
       = (if reaches_prompt env a
          then [EvInput prompt_text
                  (match input_error lines with
                   | Some _ => None
                   | None => hd_error lines
                   end)]
          else [])
    /\ stdin (snd out)
       = (if reaches_prompt env a
          then match input_error lines with
               | Some (_, pending) => pending
               | None => tl lines
               end
          else lines)
    /\ (forall e, print_failure (listing_text env a) = Some e ->
                  fst out = Raised e /\ attempted Tr = [])
    /\ (forall e pending, reaches_prompt env a = true ->
                       input_error lines = Some (e, pending) ->
                       fst out = Raised e /\ attempted Tr = []).
Proof.
  cbv zeta. rewrite run_cases_on.
  unfold reaches_prompt, asks, working_set, listing_text, start.
  cbn [trace stdin ext app].
  destruct (resolve env (paths a) (parent_dir a)) as [[|p ps]|e0].
  - exists []. rewrite andb_false_r. cbn [fst snd trace stdin andb].
    read_pre. repeat split; try reflexivity; discriminate.
  - set (W := natsorted (p :: ps)).
    set (texts := (PyStr.nl ++ "Paths to process:" ++ PyStr.nl)%string
                  :: map PurePath.str W).
    rewrite andb_true_r. cbv zeta.
    assert (Hproc : forall pre0 lines0,
      attempted pre0 = [] ->
      exists rest,
        W = attempted
              (trace (snd (process_volumes a W (mkWorld pre0 lines0 x))))
            ++ rest
        /\ (forall u,
              fst (process_volumes a W (mkWorld pre0 lines0 x)) = Normal u ->
              rest = [])
        /\ printed (trace (snd (process_volumes a W (mkWorld pre0 lines0 x))))
           = printed pre0
        /\ prompts (trace (snd (process_volumes a W (mkWorld pre0 lines0 x))))
           = prompts pre0
        /\ stdin (snd (process_volumes a W (mkWorld pre0 lines0 x)))
           = lines0).
    { intros pre0 lines0 Hpre.
      destruct (process_volumes_frame a W (mkWorld pre0 lines0 x))
        as (evs & rest & Ht & Hs & Hl & Hpt & Hpr & Hres).
      cbn [trace stdin] in Ht, Hs. exists rest. rewrite Ht, Hs.
      autorewrite with reads. rewrite Hpre, Hpt, Hpr, !app_nil_r.
      repeat split; assumption. }
    destruct (print_failure texts) as [e|] eqn:Hpf.
    + exists W. rewrite andb_false_r. cbn [fst snd trace stdin].
      read_pre. repeat split; intros; try reflexivity; try discriminate;
        congruence.
    + destruct (disable_confirmation a); cbn [negb andb].
      * destruct (Hproc (ocr_note a ++ map EvPrint (printed_prefix texts))
                    lines) as (rest & Hl & Hn & Hpt & Hpr & Hs);
          [now read_pre|].
        exists rest. rewrite Hpt, Hpr, Hs. read_pre.
        repeat split; try assumption; try discriminate.
        intros u Hu _. now apply (Hn u).
      * destruct (input_error lines) as [[e pending]|] eqn:Hie.
        -- exists W. cbn [fst snd trace stdin]. read_pre.
           repeat split; intros; try reflexivity; try discriminate;
             congruence.
        -- destruct lines as [|line rest0].
           ++ exists W. cbn [fst snd trace stdin tl hd_error]. read_pre.
              repeat split; try reflexivity; discriminate.
           ++ cbv zeta. destruct (affirmative line).
              ** destruct (Hproc
                             ((ocr_note a ++ map EvPrint (printed_prefix texts))
                              ++ [EvInput prompt_text (Some line)]) rest0)
                   as (rest & Hl & Hn & Hpt & Hpr & Hs);
                   [now read_pre|].
                 exists rest. rewrite Hpt, Hpr, Hs. read_pre.
                 cbn [tl hd_error].
                 repeat split; try assumption; try discriminate.
                 intros u Hu _. now apply (Hn u).
              ** exists W. cbn [fst snd trace stdin tl hd_error]. read_pre.
                 repeat split; intros; try reflexivity; try discriminate;
                   congruence.
  - exists []. rewrite andb_false_r. cbn [fst snd trace stdin andb].
    read_pre. repeat split; try reflexivity; discriminate.
Qed.

End RunOnTrace.

(** ** The order of the working set (line 80) *)



(** ** Runs on a terminal that can raise (lines 82-89) *)

Lemma printed_prefix_all {T : Terminal} (l : list string) :
  print_failure l = None -> printed_prefix l = l.
Proof.
  induction l as [|s l IH]; [reflexivity|]. cbn.
  destruct (print_error s); [discriminate|].
  intros E. now rewrite (IH E).
Qed.

(** What a run prints is the listing, up to the first string on which
    [print] raises: the header and then the string form of each path of
    the working set in natural order, and nothing when resolution raises or
    returns the empty list.  When [print] raises, its exception leaves
    [run]: no prompt is shown, nothing is read and no volume is
    attempted. *)
Theorem run_prints_listing {Ext : Type} `{VolumeProcessor Ext}
    {T : Terminal} (env : Env) (a : Args) (lines : list string) (x : Ext) :
  let out := run env a (start lines x) in
  let Tr := trace (snd out) in
  printed Tr = printed_prefix (listing_text env a)
  /\ (print_failure (listing_text env a) = None ->
      printed Tr = listing_text env a)
  /\ (forall e, print_failure (listing_text env a) = Some e ->
        fst out = Raised e /\ prompts Tr = [] /\ attempted Tr = []
        /\ stdin (snd out) = lines).
Proof.
  cbv zeta.
  destruct (run_on_trace env a lines x)
    as (rest & _ & _ & Hp & Hpr & Hs & Hf & _).
  cbv zeta in Hp, Hpr, Hs, Hf.
  split; [exact Hp|].
  split.
  - intros E. now rewrite Hp, printed_prefix_all.
  - intros e E. destruct (Hf e E) as (Hr & Ha).
    unfold reaches_prompt in Hpr, Hs. rewrite E, andb_false_r in Hpr, Hs.
    now repeat split.
Qed.

Lemma run_prints_listing_witness :
  let out := @run nat always_ok ascii_terminal (lib_env [])
               (default_args ["/v1"; ("/" ++ accented)%string; "/v2"])
               (start ["y"] 0) in
  let Tr := trace (snd out) in
  printed Tr
  = [(PyStr.nl ++ "Paths to process:" ++ PyStr.nl)%string; "/v1"; "/v2"]
  /\ fst out
     = Raised (UnicodeEncodeError "'ascii' codec can't encode character")
  /\ prompts Tr = [] /\ attempted Tr = [] /\ stdin (snd out) = ["y"].
Proof.
  cbv zeta.
  destruct (@run_prints_listing nat always_ok ascii_terminal (lib_env [])
              (default_args ["/v1"; ("/" ++ accented)%string; "/v2"])
              ["y"] 0) as (Hp & _ & Hf).
  split; [exact Hp|].
  apply (Hf (UnicodeEncodeError "'ascii' codec can't encode character")).
  reflexivity.
Defined.

(** The prompt is shown exactly when confirmation is not disabled,
    resolution returned a list that is not empty and the listing was
    printed.  [input] is then called once: when it returns, one line has
    left the input, the first one; when it raises, the input is what the
    terminal leaves of it, the exception leaves [run] and no volume is
    attempted.  Nothing else is ever read. *)
Theorem run_reads_at_most_one_line {Ext : Type} `{VolumeProcessor Ext}
    {T : Terminal} (env : Env) (a : Args) (lines : list string) (x : Ext) :
  let out := run env a (start lines x) in
  let Tr := trace (snd out) in
  prompts Tr
  = (if reaches_prompt env a
     then [EvInput prompt_text
             (match input_error lines with
              | Some _ => None
              | None => hd_error lines
              end)]
     else [])
  /\ stdin (snd out)
     = (if reaches_prompt env a
        then match input_error lines with
             | Some (_, pending) => pending
             | None => tl lines
             end
        else lines)
  /\ (forall e pending,
        reaches_prompt env a = true -> input_error lines = Some (e, pending) ->
        fst out = Raised e /\ attempted Tr = []).
Proof.
  cbv zeta.
  destruct (run_on_trace env a lines x)
    as (rest & _ & _ & _ & Hpr & Hs & _ & Hi).
  split; [exact Hpr|]. split; [exact Hs|exact Hi].
Qed.

Lemma run_reads_at_most_one_line_witness :
  let out := @run nat always_ok interrupted_terminal (lib_env [])
               (default_args ["/v1"]) (start ["y"] 0) in
  let Tr := trace (snd out) in
  prompts Tr = [EvInput prompt_text None]
  /\ stdin (snd out) = ["y"]
  /\ fst out = Raised KeyboardInterrupt /\ attempted Tr = [].
Proof.
  cbv zeta.
  destruct (@run_reads_at_most_one_line nat always_ok interrupted_terminal
              (lib_env []) (default_args ["/v1"]) ["y"] 0)
    as (Hpr & Hs & Hi).
  split; [exact Hpr|]. split; [exact Hs|].
  apply (Hi KeyboardInterrupt ["y"]); reflexivity.
Defined.

(** With confirmation disabled, a resolved list that is not empty and a
    listing that prints, the run goes straight from the listing to the
    processing: no prompt is shown, no input is read, and the first volume
    of the working set is attempted, whatever happens next. *)
Theorem run_confirmation_disabled {Ext : Type} `{VolumeProcessor Ext}
    {T : Terminal} (env : Env) (a : Args) (lines : list string) (x : Ext)
    (ps : list Path) :
  disable_confirmation a = true ->
  resolve env (paths a) (parent_dir a) = Normal ps ->
  ps <> [] ->
  print_failure (listing_text env a) = None ->
  let out := run env a (start lines x) in
  out = process_volumes a (natsorted ps)
          (mkWorld (ocr_note a ++ listing ps) lines x)
  /\ prompts (trace (snd out)) = []
  /\ stdin (snd out) = lines
  /\ exists q qs rest,
       natsorted ps = q :: qs
       /\ attempted (trace (snd out)) = q :: rest.
Proof.
  intros Hd Hr Hne Hpf. cbv zeta.
  destruct (run_on_trace env a lines x)
    as (rest & Hl & _ & _ & Hpr & Hs & _).
  cbv zeta in Hl, Hpr, Hs.
  assert (Ha : reaches_prompt env a = false)
    by (unfold reaches_prompt, asks; now rewrite Hd).
  rewrite Ha in Hpr, Hs.
  assert (Hout : run env a (start lines x)
                 = process_volumes a (natsorted ps)
                     (mkWorld (ocr_note a ++ listing ps) lines x)).
  { rewrite run_cases_on, Hr, Hd. unfold listing_text in Hpf.
    rewrite Hr in Hpf. destruct ps as [|p ps]; [congruence|].
    cbv zeta. rewrite Hpf, (printed_prefix_all _ Hpf).
    unfold listing, start. cbn [trace stdin ext app map].
    now rewrite map_map. }
  repeat split; try assumption.
  unfold working_set in Hl. rewrite Hr in Hl.
  destruct (natsorted ps) as [|q qs] eqn:Hq.
  - apply (proj1 (natsorted_nil_iff ps)) in Hq. contradiction.
  - pose proof (process_volumes_attempts a q qs
                  (mkWorld (ocr_note a ++ listing ps) lines x)) as Hatt.
    rewrite <- Hout in Hatt.
    destruct (attempted (trace (snd (run env a (start lines x)))))
      as [|q' rest']; [contradiction|].
    injection Hl as -> _. eauto.
Qed.

Lemma run_confirmation_disabled_witness :
  let a := mkArgs ["/v1"] None "m" false true true false
                  true true false false true false false false false in
  let out := @run nat always_ok ascii_terminal (lib_env []) a
               (start ["n"] 0) in
  out = @process_volumes nat always_ok a (natsorted [v1])
          (mkWorld (ocr_note a ++ listing [v1]) ["n"] 0)
  /\ prompts (trace (snd out)) = []
  /\ stdin (snd out) = ["n"]
  /\ exists q qs rest,
       natsorted [v1] = q :: qs
       /\ attempted (trace (snd out)) = q :: rest.
Proof.
  apply (@run_confirmation_disabled nat always_ok ascii_terminal (lib_env [])
           (mkArgs ["/v1"] None "m" false true true false
                   true true false false true false false false false)
           ["n"] 0 [v1]).
  - reflexivity.
  - reflexivity.
  - discriminate.
  - reflexivity.
Defined.

(** ** What every run does, on any terminal *)

Lemma calls_prints (l : list string) : calls (map EvPrint l) = [].
Proof. apply map_EvPrint_reads. Qed.
Lemma outcomes_prints (l : list string) : outcomes (map EvPrint l) = [].
Proof. apply map_EvPrint_reads. Qed.
Lemma info_messages_prints (l : list string) :
  info_messages (map EvPrint l) = [].
Proof. apply map_EvPrint_reads. Qed.
Lemma error_records_prints (l : list string) :
  error_records (map EvPrint l) = [].
Proof. apply map_EvPrint_reads. Qed.

#[local] Hint Rewrite calls_prints outcomes_prints info_messages_prints
  error_records_prints : reads.

Section RunTraceOn.
Context {Ext : Type} `{VP : VolumeProcessor Ext} {T : Terminal}.

(** The runner, started after events that hold no call and no ERROR
    record, read off its final trace. *)
Lemma process_volumes_trace (a : Args) (W : list Path) (pre0 : list Event)
    (lines0 : list string) (x : Ext) :
  attempted pre0 = [] -> calls pre0 = [] -> outcomes pre0 = [] ->
  error_records pre0 = [] ->
  let out := process_volumes a W (mkWorld pre0 lines0 x) in
  let Tr := trace (snd out) in
  exists rest tailmsgs,
    W = attempted Tr ++ rest
    /\ ext (snd out)
       = ext_after (make_ovg a) (as_one_file a) (attempted Tr) x
    /\ Forall (fun c => c = (make_ovg a, as_one_file a)) (calls Tr)
    /\ map snd (outcomes Tr)
       = volume_outcomes (make_ovg a) (as_one_file a) (attempted Tr) x
    /\ error_records Tr = failure_records (outcomes Tr)
    /\ info_messages Tr
       = info_messages pre0 ++ progress_msgs (List.length W) 0 (attempted Tr)
         ++ tailmsgs
    /\ match fst out with
       | Normal _ =>
           tailmsgs = [summary_msg (successes Tr) (List.length W)]
           /\ rest = []
           /\ forallb catchable (map snd (outcomes Tr)) = true
           /\ last Tr (EvPrint "")
              = EvLog INFO (summary_msg (successes Tr) (List.length W)) None
       | Raised _ => tailmsgs = []
       end.
Proof.
  intros Ha Hc Ho He. cbv zeta.
  destruct (process_volumes_any a W (mkWorld pre0 lines0 x))
    as (evs & rest & Hw & Hl & Hcs & Hpr & Hpt & Hos & Hi & Hes & Hres).
  rewrite Hw. cbn [trace stdin ext] in *.
  assert (Hsucc : forall t, outcomes t = outcomes evs ->
                            successes t = successes evs).
  { intros t Ht. unfold successes. now rewrite Ht. }
  destruct (fst (process_volumes a W (mkWorld pre0 lines0 x))) as [u|e].
  - exists rest, [summary_msg (successes evs) (List.length W)].
    destruct Hres as [Hrest Hcat].
    assert (Ro : outcomes
                   (pre0 ++ evs
                    ++ [EvLog INFO
                          (summary_msg (successes evs) (List.length W)) None])
                 = outcomes evs).
    { autorewrite with reads. rewrite Ho. cbn. now rewrite app_nil_r. }
    rewrite (Hsucc _ Ro), Ro.
    autorewrite with reads. rewrite Ha, Hc, He, Hi, Hes. cbn.
    rewrite !app_nil_r.
    repeat split; try assumption.
    rewrite app_assoc. apply last_last.
  - exists rest, [].
    autorewrite with reads. rewrite Ha, Hc, Ho, He, Hi, Hes. cbn.
    rewrite !app_nil_r.
    repeat split; assumption.
Qed.

(** A run from a fresh world on any terminal: the calls made, the records
    written and the way it ends. *)
Lemma run_trace_facts_on (env : Env) (a : Args) (lines : list string)
    (x : Ext) :
  let out := run env a (start lines x) in
  let Tr := trace (snd out) in
  let N := List.length (working_set env a) in
  exists rest tailmsgs,
    working_set env a = attempted Tr ++ rest
    /\ ext (snd out)
       = ext_after (make_ovg a) (as_one_file a) (attempted Tr) x
    /\ Forall (fun c => c = (make_ovg a, as_one_file a)) (calls Tr)
    /\ map snd (outcomes Tr)
       = volume_outcomes (make_ovg a) (as_one_file a) (attempted Tr) x
    /\ error_records Tr
       = no_paths_record env a ++ failure_records (outcomes Tr)
    /\ info_messages Tr
       = info_messages (ocr_note a) ++ progress_msgs N 0 (attempted Tr)
         ++ tailmsgs
    /\ match fst out with
       | Normal _ =>
           (attempted Tr = [] /\ tailmsgs = [])
           \/ (tailmsgs = [summary_msg (successes Tr) N]
               /\ rest = []
               /\ forallb catchable (map snd (outcomes Tr)) = true
               /\ last Tr (EvPrint "")
                  = EvLog INFO (summary_msg (successes Tr) N) None)
       | Raised _ => tailmsgs = []
       end.
Proof.
  cbv zeta. rewrite run_cases_on.
  unfold working_set, no_paths_record, start.
  cbn [trace stdin ext app].
  destruct (resolve env (paths a) (parent_dir a)) as [[|p ps]|e0].
  - exists [], []. cbn [fst snd trace stdin ext]. read_pre.
    repeat split; try reflexivity; try apply Forall_nil. now left.
  - set (W := natsorted (p :: ps)).
    set (texts := (PyStr.nl ++ "Paths to process:" ++ PyStr.nl)%string
                  :: map PurePath.str W).
    cbv zeta.
    assert (Hproc : forall pre0 lines0,
      attempted pre0 = [] -> calls pre0 = [] -> outcomes pre0 = [] ->
      error_records pre0 = [] ->
      info_messages pre0 = info_messages (ocr_note a) ->
      let out := process_volumes a W (mkWorld pre0 lines0 x) in
      let Tr := trace (snd out) in
      exists rest tailmsgs,
        W = attempted Tr ++ rest
        /\ ext (snd out)
           = ext_after (make_ovg a) (as_one_file a) (attempted Tr) x
        /\ Forall (fun c => c = (make_ovg a, as_one_file a)) (calls Tr)
        /\ map snd (outcomes Tr)
           = volume_outcomes (make_ovg a) (as_one_file a) (attempted Tr) x
        /\ error_records Tr = [] ++ failure_records (outcomes Tr)
        /\ info_messages Tr
           = info_messages (ocr_note a)
             ++ progress_msgs (List.length W) 0 (attempted Tr) ++ tailmsgs
        /\ match fst out with
           | Normal _ =>
               (attempted Tr = [] /\ tailmsgs = [])
               \/ (tailmsgs = [summary_msg (successes Tr) (List.length W)]
                   /\ rest = []
                   /\ forallb catchable (map snd (outcomes Tr)) = true
                   /\ last Tr (EvPrint "")
                      = EvLog INFO
                          (summary_msg (successes Tr) (List.length W)) None)
           | Raised _ => tailmsgs = []
           end).
    { intros pre0 lines0 Ha Hc Ho He Hi. cbv zeta.
      destruct (process_volumes_trace a W pre0 lines0 x Ha Hc Ho He)
        as (rest & tm & H1 & H2 & H3 & H4 & H5 & H6 & H7).
      cbv zeta in H1, H2, H3, H4, H5, H6, H7.
      exists rest, tm. rewrite <- Hi. cbn [app].
      repeat split; try assumption.
      destruct (fst (process_volumes a W (mkWorld pre0 lines0 x)));
        [now right|assumption]. }
    cbv zeta in Hproc.
    destruct (print_failure texts) as [e|] eqn:Hpf.
    + exists W, []. cbn [fst snd trace stdin ext]. read_pre.
      repeat split; try reflexivity; try apply Forall_nil.
    + destruct (disable_confirmation a).
      * apply Hproc; now read_pre.
      * destruct (input_error lines) as [[e pending]|].
        -- exists W, []. cbn [fst snd trace stdin ext]. read_pre.
           repeat split; try reflexivity; try apply Forall_nil.
        -- destruct lines as [|line rest0].
           ++ exists W, []. cbn [fst snd trace stdin ext]. read_pre.
              repeat split; try reflexivity; try apply Forall_nil.
           ++ cbv zeta. destruct (affirmative line).
              ** apply Hproc; now read_pre.
              ** exists W, []. cbn [fst snd trace stdin ext]. read_pre.
                 repeat split; try reflexivity; try apply Forall_nil.
                 now left.
  - exists [], []. cbn [fst snd trace stdin ext]. read_pre.
    repeat split; try reflexivity; try apply Forall_nil.
Qed.

End RunTraceOn.

(** Whatever the filesystem, the operator and the processor do, the volumes
    handed to [process_dir] are an initial part of the working set, in its
    order: none is skipped, repeated or taken out of turn; and the external
    state the run leaves is the one these calls leave. *)
Theorem run_attempts_in_order {Ext : Type} `{VolumeProcessor Ext}
    {Tm : Terminal} (env : Env) (a : Args) (lines : list string) (x : Ext) :
  let out := run env a (start lines x) in
  exists rest,
    working_set env a = attempted (trace (snd out)) ++ rest
    /\ ext (snd out)
       = ext_after (make_ovg a) (as_one_file a)
           (attempted (trace (snd out))) x.
Proof.
  cbv zeta.
  destruct (run_trace_facts_on env a lines x) as (rest & tm & H1 & H2 & _).
  exists rest. now split.
Qed.

(** Every call of [process_dir] in a run is made on the same generator,
    built from the arguments of [run], and with the same [as_one_file]. *)
Theorem run_same_configuration {Ext : Type} `{VolumeProcessor Ext}
    {Tm : Terminal} (env : Env) (a : Args) (lines : list string) (x : Ext) :
  Forall (fun c => c = (make_ovg a, as_one_file a))
         (calls (trace (snd (run env a (start lines x))))).
Proof.
  destruct (run_trace_facts_on env a lines x)
    as (rest & tm & _ & _ & Hc & _).
  exact Hc.
Qed.

(** The ERROR records of a run are, in order: the "no paths" record when
    resolution returned the empty list, then one record for each
    [process_dir] call that failed with an exception of class [Exception],
    naming the path and carrying the exception.  There is no other. *)
Theorem run_error_records {Ext : Type} `{VolumeProcessor Ext}
    {Tm : Terminal} (env : Env) (a : Args) (lines : list string) (x : Ext) :
  let T := trace (snd (run env a (start lines x))) in
  error_records T = no_paths_record env a ++ failure_records (outcomes T).
Proof.
  destruct (run_trace_facts_on env a lines x)
    as (rest & tm & _ & _ & _ & _ & He & _).
  exact He.
Qed.

(** When a run returns and at least one volume was attempted, every volume
    of the working set was attempted, once per occurrence among the
    resolved paths; every failure was of class [Exception]; and the last
    record is the summary, whose count is the number of calls that
    returned, the failures making up the rest of the total. *)
Theorem run_completed_summary {Ext : Type} `{VolumeProcessor Ext}
    {Tm : Terminal} (env : Env) (a : Args) (lines : list string) (x : Ext)
    (ps : list Path) :
  let out := run env a (start lines x) in
  let T := trace (snd out) in
  resolve env (paths a) (parent_dir a) = Normal ps ->
  fst out = Normal tt ->
  attempted T <> [] ->
  attempted T = natsorted ps
  /\ Permutation (attempted T) ps
  /\ forallb catchable (map snd (outcomes T)) = true
  /\ last T (EvPrint "")
     = EvLog INFO (summary_msg (successes T) (List.length ps)) None
  /\ successes T + failures T = List.length ps.
Proof.
  cbv zeta. intros Hr Hn Hne.
  destruct (run_trace_facts_on env a lines x)
    as (rest & tm & Hl & _ & _ & _ & _ & _ & Hres).
  cbv zeta in Hres. rewrite Hn in Hres.
  destruct Hres as [[Hnil _]|(_ & -> & Hcat & Hlast)]; [contradiction|].
  unfold working_set in *. rewrite Hr in *. rewrite app_nil_r in Hl.
  assert (Hlen : List.length (natsorted ps) = List.length ps)
    by apply Permutation_length, natsorted_Permutation.
  rewrite Hlen in Hlast. repeat split; try assumption.
  - now symmetry.
  - rewrite <- Hl. apply natsorted_Permutation.
  - rewrite successes_failures, <- Hl. exact Hlen.
Qed.

Lemma run_completed_summary_witness :
  let out := @run nat (fails_on v1 (RuntimeError "boom")) plain_terminal
               (lib_env [])
               (default_args ["/v2"; "/v1"]) (start ["y"] 0) in
  let T := trace (snd out) in
  attempted T = natsorted [v2; v1]
  /\ Permutation (attempted T) [v2; v1]
  /\ forallb catchable (map snd (outcomes T)) = true
  /\ last T (EvPrint "")
     = EvLog INFO (summary_msg (successes T) (List.length [v2; v1])) None
  /\ successes T + failures T = List.length [v2; v1].
Proof.
  apply (@run_completed_summary nat (fails_on v1 (RuntimeError "boom"))
           plain_terminal (lib_env []) (default_args ["/v2"; "/v1"]) ["y"] 0
           [v2; v1]).
  - reflexivity.
  - reflexivity.
  - discriminate.
Defined.

(** The INFO records of a run are, in order: the note about OCR if OCR is
    disabled; one progress record per attempted volume, numbered from 1
    against the size of the working set; and the summary, present exactly
    when the loop reached its end. *)
Theorem run_info_records {Ext : Type} `{VolumeProcessor Ext}
    {Tm : Terminal} (env : Env) (a : Args) (lines : list string) (x : Ext) :
  let out := run env a (start lines x) in
  let T := trace (snd out) in
  let N := List.length (working_set env a) in
  exists tailmsgs,
    info_messages T
    = info_messages (ocr_note a) ++ progress_msgs N 0 (attempted T)
      ++ tailmsgs
    /\ (tailmsgs = [summary_msg (successes T) N]
        /\ (exists u, fst out = Normal u) /\ attempted T = working_set env a
        \/ tailmsgs = []
           /\ (attempted T = [] \/ exists e, fst out = Raised e)).
Proof.
  cbv zeta.
  destruct (run_trace_facts_on env a lines x)
    as (rest & tm & Hl & _ & _ & _ & _ & Hi & Hres).
  exists tm. split; [exact Hi|]. cbv zeta in Hres.
  destruct (fst (run env a (start lines x))) as [u|e].
  - destruct Hres as [[Hnil ->]|(-> & -> & _)].
    + right. split; [reflexivity | now left].
    + left. rewrite app_nil_r in Hl. repeat split; eauto.
  - subst tm. right. split; [reflexivity | right; eauto].
Qed.

(** ** The confirmation on any terminal (lines 82-96) *)

(** When the listing is printed and [input] does not raise of its own, the
    run stands at the prompt after the note about OCR and the listing:
    with no input left [EOFError] leaves it; with a line, the run hands the
    sorted list to the runner if the line is accepted and returns at once
    if not, the line gone from the input in both cases. *)
Theorem run_at_prompt {Ext : Type} `{VolumeProcessor Ext} {Tm : Terminal}
    (env : Env) (a : Args) (ps : list Path) (lines : list string) (x : Ext) :
  disable_confirmation a = false ->
  resolve env (paths a) (parent_dir a) = Normal ps ->
  ps <> [] ->
  print_failure (listing_text env a) = None ->
  input_error lines = None ->
  let out := run env a (start lines x) in
  let shown := ocr_note a ++ listing ps in
  match lines with
  | [] =>
      out = (Raised EOFError,
             mkWorld (shown ++ [EvInput prompt_text None]) [] x)
  | line :: rest =>
      let w1 := mkWorld (shown ++ [EvInput prompt_text (Some line)]) rest x in
      (affirmative line = true ->
       out = process_volumes a (natsorted ps) w1)
      /\ (affirmative line = false ->
          out = (Normal tt, w1)
          /\ attempted (trace (snd out)) = [])
  end.
Proof.
  intros Hd Hr Hne Hpf Hin. cbv zeta.
  rewrite run_cases_on, Hr, Hd. unfold listing_text in Hpf.
  rewrite Hr in Hpf. destruct ps as [|p ps]; [congruence|].
  cbv zeta. rewrite Hpf, (printed_prefix_all _ Hpf).
  unfold start. cbn [trace stdin ext app]. rewrite Hin.
  assert (Hl : map EvPrint
                 ((PyStr.nl ++ "Paths to process:" ++ PyStr.nl)%string
                  :: map PurePath.str (natsorted (p :: ps)))
               = listing (p :: ps)).
  { unfold listing. cbn [map]. now rewrite map_map. }
  rewrite Hl. destruct lines as [|line rest].
  - now rewrite <- app_assoc.
  - cbv zeta. rewrite <- !app_assoc.
    destruct (affirmative line); split; intros E; try discriminate E.
    + reflexivity.
    + split; [reflexivity|]. cbn [snd trace]. now read_pre.
Qed.

Lemma run_at_prompt_witness :
  let a := default_args ["/v1"] in
  let out := @run nat always_ok ascii_terminal (lib_env []) a
               (start ["Yes"; "more"] 0) in
  let w1 := mkWorld ((ocr_note a ++ listing [v1])
                     ++ [EvInput prompt_text (Some "Yes")]) ["more"] 0 in
  out = @process_volumes nat always_ok a (natsorted [v1]) w1.
Proof.
  cbv zeta.
  apply (@run_at_prompt nat always_ok ascii_terminal (lib_env [])
           (default_args ["/v1"]) [v1] ["Yes"; "more"] 0);
    (reflexivity || discriminate).
Defined.
